(** * Knowledge-base API and calculator tool: a shallow embedding

    The development follows [src/kb_api.py] (upload, query, delete and
    statistics over per-collection vector indexes kept under one base
    directory) and [src/tools/calculator/main.py] (an arithmetic
    evaluator over Python's [ast]).

    Conventions.
    - A Python [str] is the list of its code points ([list N]).
    - A Python [float] that carries a distance or a score is an exact
      rational ([Q]); rounding is not modelled.
    - Handlers run in a small state-and-exception monad over the file
      system; what the environment decides (the name of the scratch
      file, an I/O fault) is an explicit argument of the handler. *)

From Equations Require Import Equations.
From Stdlib Require Import ZArith QArith Qminmax String Ascii.
From stdpp Require Import gmap list strings.

Local Open Scope Z_scope.

(** ** Python strings *)

Abbreviation str := (list N).

(** An ASCII literal as a Python string. *)
Definition py (s : string) : str :=
  map N_of_ascii (list_ascii_of_string s).

Module PyStr.

(** [s.replace(c, '')] for a one-character [c]: every occurrence goes. *)
Definition replace_empty (c : N) (s : str) : str :=
  filter (λ x, x ≠ c) s.

Definition is_ascii_upper (c : N) : bool := ((65 <=? c) && (c <=? 90))%N.
Definition is_ascii_lower (c : N) : bool := ((97 <=? c) && (c <=? 122))%N.
Definition is_ascii_digit (c : N) : bool := ((48 <=? c) && (c <=? 57))%N.

Definition is_ascii_alnum (c : N) : bool :=
  is_ascii_upper c || is_ascii_lower c || is_ascii_digit c.

(** Index of the last occurrence of [c] in [s], as [str.rfind] gives it
    ([-1] when there is none). *)
Fixpoint rfind_from (c : N) (s : str) (i : Z) (last : Z) : Z :=
  match s with
  | [] => last
  | x :: s' => rfind_from c s' (i + 1) (if N.eqb x c then i else last)
  end.

Definition rfind (c : N) (s : str) : Z := rfind_from c s 0 (-1).

(** [s[i:]] and [s[:i]] for [0 <= i]. *)
Definition slice_from (s : str) (i : Z) : str := drop (Z.to_nat i) s.
Definition slice_to (s : str) (i : Z) : str := take (Z.to_nat i) s.

End PyStr.

(** ** [os.path] on POSIX *)

Module OsPath.
Import PyStr.

Definition sep : N := 47.     (* "/" *)
Definition extsep : N := 46.  (* "." *)

(** The loop of [genericpath._splitext]: skip the leading dots of the
    base name; an extension needs a character that is not a dot before
    the last dot. [n] bounds the walk from [filenameIndex] to
    [dotIndex]. *)
Fixpoint has_stem (p : str) (filenameIndex : Z) (n : nat) : bool :=
  match n with
  | O => false
  | S n' =>
      match p !! Z.to_nat filenameIndex with
      | Some x => if N.eqb x extsep
                  then has_stem p (filenameIndex + 1) n'
                  else true
      | None => true
      end
  end.

Definition splitext (p : str) : str * str :=
  let sepIndex := rfind sep p in
  let dotIndex := rfind extsep p in
  if (sepIndex <? dotIndex) &&
     has_stem p (sepIndex + 1) (Z.to_nat (dotIndex - (sepIndex + 1)))
  then (slice_to p dotIndex, slice_from p dotIndex)
  else (p, []).

(** [os.path.join(a, b)]. *)
Definition join (a b : str) : str :=
  match b with
  | x :: _ => if N.eqb x sep then b
              else match last a with
                   | None => b
                   | Some y => if N.eqb y sep then a ++ b else a ++ sep :: b
                   end
  | [] => match last a with
          | None => b
          | Some y => if N.eqb y sep then a else a ++ [sep]
          end
  end.

End OsPath.

(** ** Exceptions and the handler monad *)

(** The [detail] of an [HTTPException]; the three handlers that wrap a
    caught exception keep it as the cause. *)
Inductive detail :=
| UnsupportedFileType (file_ext : str)
| BadCollectionName
| NoTextExtracted
| CollectionNotFound (name : str)
| ErrorProcessingDocument (cause : exn)
| ErrorQueryingCollection (cause : exn)
| ErrorDeletingCollection (cause : exn)
| ErrorGettingStats (cause : exn)
with exn :=
| HTTPException (status_code : Z) (d : detail)
| ValueError (msg : str)
| UnboundLocalError (name : string)
| OSError
| LoaderError
| IndexError.

(** Every exception above derives from [Exception], so a clause
    [except Exception] catches each of them, [HTTPException] included. *)

Inductive outcome (A : Type) :=
| Ret (a : A)
| Raise (e : exn).
Arguments Ret {A} a.
Arguments Raise {A} e.

Definition M (S A : Type) : Type := S -> outcome A * S.

Definition ret {S A} (a : A) : M S A := λ s, (Ret a, s).

Definition raise {S A} (e : exn) : M S A := λ s, (Raise e, s).

Definition bind {S A B} (m : M S A) (k : A -> M S B) : M S B :=
  λ s, match m s with
       | (Ret a, s') => k a s'
       | (Raise e, s') => (Raise e, s')
       end.

Definition gets {S A} (f : S -> A) : M S A := λ s, (Ret (f s), s).

Definition modify {S} (f : S -> S) : M S unit := λ s, (Ret tt, f s).

(** [try: m  except Exception as e: h e] *)
Definition try_except {S A} (m : M S A) (h : exn -> M S A) : M S A :=
  λ s, match m s with
       | (Ret a, s') => (Ret a, s')
       | (Raise e, s') => h e s'
       end.

(** [try: m  finally: f].  The [finally] suite runs on both exits; when
    it raises, its exception replaces the pending result. *)
Definition try_finally {S A} (m : M S A) (f : M S unit) : M S A :=
  λ s, let (r, s') := m s in
       match f s' with
       | (Ret _, s'') => (r, s'')
       | (Raise e, s'') => (Raise e, s'')
       end.

Notation "x <- m ;; k" := (bind m (λ x, k))
  (at level 100, m at next level, right associativity).
Notation "m ;;; k" := (bind m (λ _, k))
  (at level 100, right associativity).

(** ** Documents, the file system and the trace of storage accesses *)

Record Document := {
  page_content : str;
  metadata : gmap str str
}.

(** What a path holds: a regular file, or the persist directory of a
    vector index.  A directory is represented by the records the index
    keeps in it, oldest first. *)
Inductive node :=
| File (content : list Byte.byte)
| Dir (index : list Document).

Inductive event :=
| EvExists (p : str)
| EvCreateFile (p : str)
| EvWriteFile (p : str)
| EvReadFile (p : str)
| EvUnlink (p : str)
| EvRmtree (p : str)
| EvOpenIndex (p : str)
| EvAddDocuments (p : str) (n : nat)
| EvSearch (p : str).

Record world := {
  fs : gmap str node;
  trace : list event
}.

Definition log (e : event) : M world unit :=
  modify (λ w, {| fs := fs w; trace := trace w ++ [e] |}).

Definition set_fs (f : gmap str node -> gmap str node) : M world unit :=
  modify (λ w, {| fs := f (fs w); trace := trace w |}).

(** [os.path.exists] *)
Definition path_exists (p : str) : M world bool :=
  log (EvExists p) ;;;
  gets (λ w, bool_decide (is_Some (fs w !! p))).

(** [os.unlink] *)
Definition unlink (p : str) : M world unit :=
  log (EvUnlink p) ;;;
  n <- gets (λ w, fs w !! p) ;;
  match n with
  | Some (File _) => set_fs (delete p)
  | _ => raise OSError
  end.

(** ** Collaborators outside the repository *)

Inductive loader :=
| PyPDFLoader
| TextLoader
| UnstructuredMarkdownLoader
| Docx2txtLoader.

(** What the handlers call and [src/] does not define: two methods of
    [str] that depend on the Unicode tables, the document loaders, the
    text splitter, and the ranking of an index's records for a query
    (embedding and nearest-neighbour search, each hit with its raw
    distance). *)
Record Platform := {
  isalnum_char : N -> bool;
  lower : str -> str;
  load : loader -> str -> list Byte.byte -> outcome (list Document);
  split_documents : list Document -> list Document;
  knn : str -> list Document -> list (Document * Q)
}.

(** ** Requests and responses *)

Record UploadFile := {
  filename : str;
  file : list Byte.byte
}.

Record UploadResponse := {
  ur_status : string;
  ur_collection : str;
  ur_chunks_added : nat;
  ur_filename : str
}.

Record QueryRequest := {
  query : str;
  collection : str;
  top_k : Z
}.

(** One entry of [QueryResponse.documents]. *)
Record Hit := {
  content : str;
  hit_metadata : gmap str str;
  distance : Q;
  score : Q
}.

Record QueryResponse := {
  qr_query : str;
  documents : list Hit;
  count : nat
}.

Record DeleteResponse := {
  dr_status : string;
  dr_collection : str
}.

Record Stats := {
  st_collection : str;
  total_chunks : nat;
  source_files : gmap str nat;
  file_count : nat
}.

(** What the environment settles during one upload: the path stem that
    [NamedTemporaryFile] picks (the suffix is appended to it), whether
    creating or filling the scratch file fails, the clock, and whether
    the index raises, and after persisting how many chunks of the
    batch. *)
Inductive scratch_stage := AtCreate | AtCopy.

Record upload_env := {
  tmp_stem : str;
  scratch_fault : option scratch_stage;
  now : str;
  index_fault : option nat
}.

(** The locals of [upload_document] that its [finally] suite reads. *)
Record frame := {
  the_world : world;
  temp_file : bool;
  temp_path : option str
}.

Definition on_world {A} (m : M world A) : M frame A :=
  λ f, let (r, w') := m (the_world f) in
       (r, {| the_world := w'; temp_file := temp_file f; temp_path := temp_path f |}).

Definition bind_temp_file : M frame unit :=
  modify (λ f, {| the_world := the_world f; temp_file := true; temp_path := temp_path f |}).

Definition bind_temp_path (p : str) : M frame unit :=
  modify (λ f, {| the_world := the_world f; temp_file := temp_file f; temp_path := Some p |}).

Definition lift {S A} (r : outcome A) : M S A := λ s, (r, s).

(** ** The vector index (Chroma) on a persist directory *)

(** [Chroma(collection_name, persist_directory, embedding_function)]:
    opens the index kept at the path, creating the directory when it
    is missing; a regular file there cannot be opened. *)
Definition chroma_open (p : str) : M world (list Document) :=
  log (EvOpenIndex p) ;;;
  n <- gets (λ w, fs w !! p) ;;
  match n with
  | Some (Dir index) => ret index
  | Some (File _) => raise IndexError
  | None => set_fs (<[p := Dir []]>) ;;; ret []
  end.

(** [vectordb.add_documents(chunks)]: every chunk gets a fresh id, so
    the batch is appended. *)
Definition add_documents (fault : option nat) (p : str) (chunks : list Document) : M world unit :=
  log (EvAddDocuments p (length chunks)) ;;;
  n <- gets (λ w, fs w !! p) ;;
  match n with
  | Some (Dir index) =>
      match fault with
      | None => set_fs (<[p := Dir (index ++ chunks)]>)
      | Some k => set_fs (<[p := Dir (index ++ take k chunks)]>) ;;; raise IndexError
      end
  | _ => raise IndexError
  end.

(** [Chroma.from_documents(documents, embedding, collection_name,
    persist_directory)]: build the index, then add the batch. *)
Definition from_documents (fault : option nat) (p : str) (chunks : list Document) : M world unit :=
  chroma_open p ;;;
  add_documents fault p chunks.

(** [shutil.rmtree]: the entries go one at a time and the first failure
    is raised, with what was removed so far gone.  [stops = Some n]: the
    removal fails after [n] records of the directory are gone. *)
Definition rmtree (stops : option nat) (p : str) : M world unit :=
  log (EvRmtree p) ;;;
  n <- gets (λ w, fs w !! p) ;;
  match n with
  | Some (Dir index) =>
      match stops with
      | None => set_fs (delete p)
      | Some k => set_fs (<[p := Dir (drop k index)]>) ;;; raise OSError
      end
  | _ => raise OSError
  end.

(** ** [src/kb_api.py] *)

Definition CHROMA_BASE_DIR : str := py "kb_storage".

Definition SUPPORTED_EXTENSIONS : gmap str loader :=
  list_to_map [ (py ".pdf", PyPDFLoader);
                (py ".txt", TextLoader);
                (py ".md", UnstructuredMarkdownLoader);
                (py ".docx", Docx2txtLoader) ].

Definition get_collection_path (collection_name : str) : str :=
  OsPath.join CHROMA_BASE_DIR collection_name.
Arguments get_collection_path : simpl never.

(** [max(0.0, 1.0 - float(score) / 3.0)] *)
Definition similarity (raw : Q) : Q := Qmax 0 (1 - raw / 3).

(** The list comprehension of [query_collection]. *)
Definition format_results (results : list (Document * Q)) : list Hit :=
  map (λ r, {| content := page_content r.1;
               hit_metadata := metadata r.1;
               distance := r.2;
               score := similarity r.2 |}) results.

(** The tally of [get_collection_stats]. *)
Definition tally (metadatas : list (gmap str str)) : gmap str nat :=
  foldl (λ source_files md,
           let source := default (py "unknown") (md !! py "source_file") in
           <[source := (default 0 (source_files !! source) + 1)%nat]> source_files)
        ∅ metadatas.

Section Handlers.
Context (P : Platform).

(** [s.isalnum()] *)
Definition isalnum (s : str) : bool :=
  match s with
  | [] => false
  | _ => forallb (isalnum_char P) s
  end.

(** The test on the collection name in [upload_document]. *)
Definition name_ok (collection : str) : bool :=
  isalnum (PyStr.replace_empty 45 (PyStr.replace_empty 95 collection)).

(** [os.path.splitext(name)[1].lower()] *)
Definition ext_of (name : str) : str := lower P (OsPath.splitext name).2.

Definition get_loader_for_file (file_path : str) : outcome loader :=
  let ext := ext_of file_path in
  match SUPPORTED_EXTENSIONS !! ext with
  | None => Raise (ValueError (py "Unsupported file type: " ++ ext))
  | Some l => Ret l
  end.

(** [loader.load()] reads the file it was given. *)
Definition loader_load (l : loader) (file_path : str) : M world (list Document) :=
  log (EvReadFile file_path) ;;;
  n <- gets (λ w, fs w !! file_path) ;;
  match n with
  | Some (File bytes) => lift (load P l file_path bytes)
  | _ => raise OSError
  end.

(** The [with tempfile.NamedTemporaryFile(delete=False, suffix=file_ext)]
    block: the file is created and bound to [temp_file], the upload is
    copied into it, and only then is [temp_path] assigned. *)
Definition save_upload (env : upload_env) (file_ext : str) (bytes : list Byte.byte) : M frame str :=
  let name := tmp_stem env ++ file_ext in
  match scratch_fault env with
  | Some AtCreate => raise OSError
  | Some AtCopy =>
      on_world (log (EvCreateFile name) ;;; set_fs (<[name := File []]>)) ;;;
      bind_temp_file ;;;
      on_world (log (EvWriteFile name)) ;;;
      raise OSError
  | None =>
      on_world (log (EvCreateFile name) ;;; set_fs (<[name := File []]>)) ;;;
      bind_temp_file ;;;
      on_world (log (EvWriteFile name) ;;; set_fs (<[name := File bytes]>)) ;;;
      bind_temp_path name ;;;
      ret name
  end.

(** The loop over [chunks] that updates each chunk's metadata. *)
Definition add_metadata (source_file collection uploaded_at : str) (chunk : Document) : Document :=
  {| page_content := page_content chunk;
     metadata := <[py "uploaded_at" := uploaded_at]>
                 (<[py "collection" := collection]>
                 (<[py "source_file" := source_file]> (metadata chunk))) |}.

(** Lines 224-242: append to the index at the collection's path when the
    path exists, create the index from the batch otherwise. *)
Definition create_or_append (fault : option nat) (collection : str) (chunks : list Document) : M world unit :=
  let collection_path := get_collection_path collection in
  there <- path_exists collection_path ;;
  if there : bool
  then chroma_open collection_path ;;; add_documents fault collection_path chunks
  else from_documents fault collection_path chunks.

(** Lines 202-250: the [try] suite after the [with] block.  It reads no
    local that the [finally] suite tests. *)
Definition index_upload (env : upload_env) (f : UploadFile) (collection temp_path : str) : M world UploadResponse :=
  loader <- lift (get_loader_for_file temp_path) ;;
  documents <- loader_load loader temp_path ;;
  let chunks := split_documents P documents in
  match chunks with
  | [] => raise (HTTPException 400 NoTextExtracted)
  | _ =>
      let chunks := map (add_metadata (filename f) collection (now env)) chunks in
      create_or_append (index_fault env) collection chunks ;;;
      ret {| ur_status := "success";
             ur_collection := collection;
             ur_chunks_added := length chunks;
             ur_filename := filename f |}
  end.

(** The [try] suite of [upload_document]. *)
Definition upload_try (env : upload_env) (f : UploadFile) (file_ext collection : str) : M frame UploadResponse :=
  temp_path <- save_upload env file_ext (file f) ;;
  on_world (index_upload env f collection temp_path).

(** The [finally] suite: [if temp_file and os.path.exists(temp_path)]. *)
Definition upload_finally : M frame unit :=
  bound <- gets temp_file ;;
  if bound : bool
  then p <- gets temp_path ;;
       match p with
       | None => raise (UnboundLocalError "temp_path")
       | Some p =>
           there <- on_world (path_exists p) ;;
           if there : bool then on_world (unlink p) else ret tt
       end
  else ret tt.

Definition upload_document (env : upload_env) (f : UploadFile) (collection : str) : M world UploadResponse :=
  let file_ext := ext_of (filename f) in
  match SUPPORTED_EXTENSIONS !! file_ext with
  | None => raise (HTTPException 400 (UnsupportedFileType file_ext))
  | Some _ =>
      if negb (name_ok collection)
      then raise (HTTPException 400 BadCollectionName)
      else
        λ w, let (r, fr) :=
               try_finally
                 (try_except (upload_try env f file_ext collection)
                    (λ e, raise (HTTPException 500 (ErrorProcessingDocument e))))
                 upload_finally
                 {| the_world := w; temp_file := false; temp_path := None |} in
             (r, the_world fr)
  end.

(** [vectordb.similarity_search_with_score(query, k)] *)
Definition similarity_search_with_score (fault : bool) (p : str) (index : list Document)
    (q : str) (k : Z) : M world (list (Document * Q)) :=
  log (EvSearch p) ;;;
  if fault then raise IndexError
  else ret (take (Z.to_nat k) (knn P q index)).

Definition query_collection (fault : bool) (request : QueryRequest) : M world QueryResponse :=
  let collection_path := get_collection_path (collection request) in
  there <- path_exists collection_path ;;
  if negb there
  then raise (HTTPException 404 (CollectionNotFound (collection request)))
  else
    try_except
      (index <- chroma_open collection_path ;;
       results <- similarity_search_with_score fault collection_path index
                    (query request) (top_k request) ;;
       let documents := format_results results in
       ret {| qr_query := query request;
              documents := documents;
              count := length documents |})
      (λ e, raise (HTTPException 500 (ErrorQueryingCollection e))).

Definition delete_collection (stops : option nat) (collection_name : str) : M world DeleteResponse :=
  let collection_path := get_collection_path collection_name in
  there <- path_exists collection_path ;;
  if negb there
  then raise (HTTPException 404 (CollectionNotFound collection_name))
  else
    try_except
      (rmtree stops collection_path ;;;
       ret {| dr_status := "success"; dr_collection := collection_name |})
      (λ e, raise (HTTPException 500 (ErrorDeletingCollection e))).

Definition get_collection_stats (fault : bool) (collection_name : str) : M world Stats :=
  let collection_path := get_collection_path collection_name in
  there <- path_exists collection_path ;;
  if negb there
  then raise (HTTPException 404 (CollectionNotFound collection_name))
  else
    try_except
      (index <- chroma_open collection_path ;;
       (if fault then raise IndexError else ret tt) ;;;
       let metadatas := map metadata index in
       let source_files := tally metadatas in
       ret {| st_collection := collection_name;
              total_chunks := length index;
              source_files := source_files;
              file_count := size source_files |})
      (λ e, raise (HTTPException 500 (ErrorGettingStats e))).

End Handlers.

(** ** The chunker *)

Module Chunker.

(** Does [sep] start [s]? *)
Fixpoint starts_with (sep s : str) : bool :=
  match sep, s with
  | [], _ => true
  | _ :: _, [] => false
  | a :: sep', b :: s' => N.eqb a b && starts_with sep' s'
  end.

(** End position of the last occurrence of [sep] in [s], positions
    counted from [i]. *)
Fixpoint last_end_from (sep s : str) (i : nat) (acc : option nat) : option nat :=
  match s with
  | [] => acc
  | _ :: s' =>
      last_end_from sep s' (S i)
        (if starts_with sep s then Some (i + length sep)%nat else acc)
  end.

Definition last_end (sep window : str) : option nat := last_end_from sep window 0 None.

Definition separators : list str := [ [10; 10]%N; [10]%N; [32]%N ].

(** Modelled from the spec: where a chunk ends inside a window of the
    text (section 4.1: paragraph, then line, then word boundaries are
    preferred before a hard character cut).  A boundary is taken only
    when the chunk it closes is longer than the overlap. *)
Definition cut_point (overlap : nat) (window : str) : nat :=
  default (length window)
    (snd <$> list_find (λ c, overlap < c)%nat
               (omap (λ sep, last_end sep window) separators)).

(** Modelled from the spec: the text splitter, a third-party class
    ([RecursiveCharacterTextSplitter], configured at lines 47-51 of
    [src/kb_api.py]) whose code is not under [src/].  Section 4.1:
    chunks of at most [size] units, the final [overlap] units of each
    chunk repeated at the start of the next one; the first chunk has no
    left overlap, the last may be shorter than [size]; a text with
    nothing in it yields no chunk. *)
Equations? split (size overlap : nat) (text : str) : list str by wf (length text) lt :=
  split size overlap text with le_lt_dec (length text) size := {
    | left _ := match text with [] => [] | _ => [text] end;
    | right _ with le_lt_dec (cut_point overlap (take size text)) overlap := {
      | left _ := [text];
      | right _ :=
          take (cut_point overlap (take size text)) text
            :: split size overlap
                 (drop (cut_point overlap (take size text) - overlap) text) } }.
Proof. rewrite length_drop. lia. Qed.

(** Reassembly: the first chunk whole, every later chunk without its
    leading [overlap] units. *)
Definition reassemble (overlap : nat) (chunks : list str) : str :=
  match chunks with
  | [] => []
  | c :: rest => c ++ concat (map (drop overlap) rest)
  end.

(** Lines 47-51: [chunk_size=1000, chunk_overlap=200, length_function=len]. *)
Definition chunk_size : nat := 1000.
Definition chunk_overlap : nat := 200.

Definition split_text (text : str) : list str := split chunk_size chunk_overlap text.

(** [split_documents]: every document is split on its own and each chunk
    keeps the metadata of the document it comes from. *)
Definition split_documents (docs : list Document) : list Document :=
  flat_map (λ d, map (λ t, {| page_content := t; metadata := metadata d |})
                     (split_text (page_content d))) docs.

End Chunker.

(** ** A reference platform

    Used to run the handlers on concrete requests.  Its character
    tables are CPython's on the code points below 256 and it is used on
    such strings only; its loaders read a file as Latin-1 text; its
    splitter is the chunker above; its ranking returns the records in
    stored order, each at distance 0. *)

Definition latin1_isalnum (c : N) : bool :=
  (PyStr.is_ascii_alnum c
   || (c =? 170) || (c =? 178) || (c =? 179) || (c =? 181) || (c =? 185) || (c =? 186)
   || ((188 <=? c) && (c <=? 190))
   || ((192 <=? c) && (c <=? 214))
   || ((216 <=? c) && (c <=? 246))
   || ((248 <=? c) && (c <=? 255)))%N.

Definition latin1_lower_char (c : N) : N :=
  (if PyStr.is_ascii_upper c then c + 32
   else if (192 <=? c) && (c <=? 222) && negb (c =? 215) then c + 32
   else c)%N.

Definition latin1_load (l : loader) (file_path : str) (bytes : list Byte.byte) : outcome (list Document) :=
  Ret [ {| page_content := map Byte.to_N bytes;
           metadata := {[ py "source" := file_path ]} |} ].

Definition reference : Platform := {|
  isalnum_char := latin1_isalnum;
  lower := map latin1_lower_char;
  load := latin1_load;
  split_documents := Chunker.split_documents;
  knn := λ _ index, map (λ d, (d, 0%Q)) index
|}.

Definition empty_world : world := {| fs := ∅; trace := [] |}.

(** ** Notions used in the statements *)

(** [list(SUPPORTED_EXTENSIONS.keys())] *)
Definition supported_formats : list str :=
  [ py ".pdf"; py ".txt"; py ".md"; py ".docx" ].

(** A handler that answered with the 400 of the name test. *)
Definition rejects_name {A} (r : outcome A) : Prop :=
  r = Raise (HTTPException 400 BadCollectionName).

(** A computation is [steady] when it only appends to the trace and
    keeps every regular file as it is. *)
Definition steady {A} (m : M world A) : Prop :=
  ∀ w, trace w `prefix_of` trace (m w).2
       ∧ ∀ p c, fs w !! p = Some (File c) → fs (m w).2 !! p = Some (File c).

(** The path of the scratch copy of an upload. *)
Definition scratch_path (P : Platform) (env : upload_env) (f : UploadFile) : str :=
  tmp_stem env ++ ext_of P (filename f).

(** The world once the upload is saved. *)
Definition saved (P : Platform) (env : upload_env) (f : UploadFile) (w : world) : world :=
  {| fs := <[scratch_path P env f := File (file f)]>
           (<[scratch_path P env f := File []]> (fs w));
     trace := (trace w ++ [EvCreateFile (scratch_path P env f)])
              ++ [EvWriteFile (scratch_path P env f)] |}.

(** ** Requests used to run the handlers *)

Definition demo_env : upload_env :=
  {| tmp_stem := py "/tmp/tmpab12cd34";
     scratch_fault := None;
     now := py "2024-05-01T12:00:00";
     index_fault := None |}.

(** A two-byte text file. *)
Definition notes_txt : UploadFile :=
  {| filename := py "notes.txt"; file := [Byte.x68; Byte.x69] |}.

(** A text file with nothing in it. *)
Definition empty_txt : UploadFile :=
  {| filename := py "empty.txt"; file := [] |}.

Definition setup_exe : UploadFile :=
  {| filename := py "setup.exe"; file := [Byte.x4d; Byte.x5a] |}.

(** The charset of the specification: [[A-Za-z0-9_-]+]. *)
Definition charset_ok (name : str) : bool :=
  match name with
  | [] => false
  | _ => forallb (λ c, PyStr.is_ascii_alnum c || (c =? 45)%N || (c =? 95)%N) name
  end.

(** The records kept at a collection's path. *)
Definition index_at (w : world) (name : str) : list Document :=
  match fs w !! get_collection_path name with
  | Some (Dir index) => index
  | _ => []
  end.

Definition stored (w : world) (name : str) : nat := length (index_at w name).

(** One [create_or_append] per batch, in order, the index never raising. *)
Fixpoint ingest_all (name : str) (batches : list (list Document)) : M world unit :=
  match batches with
  | [] => ret tt
  | b :: bs => create_or_append None name b ;;; ingest_all name bs
  end.

(** No regular file sits where the collection's directory belongs. *)
Definition no_file_at (w : world) (name : str) : Prop :=
  ∀ c, fs w !! get_collection_path name ≠ Some (File c).

Definition doc_a : Document := {| page_content := py "alpha"; metadata := ∅ |}.
Definition doc_b : Document := {| page_content := py "beta"; metadata := ∅ |}.

(** A handler that answered with the 404 of the existence test. *)
Definition is_not_found {A} (r : outcome A) : bool :=
  match r with
  | Raise (HTTPException 404 (CollectionNotFound _)) => true
  | _ => false
  end.

(** Existence as the specification words it (section 4.2): the storage
    path exists and is a directory. *)
Definition exists_as_directory (w : world) (name : str) : bool :=
  match fs w !! get_collection_path name with
  | Some (Dir _) => true
  | _ => false
  end.

(** The hits of a search are records of the index searched. *)
Definition knn_sound (P : Platform) : Prop :=
  ∀ q index hit, hit ∈ knn P q index → hit.1 ∈ index.

Definition hello_docs : QueryRequest :=
  {| query := py "hello"; collection := py "docs"; top_k := 5 |}.

Definition empty_docs_world : world :=
  {| fs := {[ get_collection_path (py "docs") := Dir [] ]}; trace := [] |}.

(** Each chunk after the first starts with the final [overlap] units of
    the chunk before it. *)
Fixpoint overlapping (overlap : nat) (chunks : list str) : Prop :=
  match chunks with
  | c1 :: (c2 :: _) as rest =>
      take overlap c2 = drop (length c1 - overlap) c1 ∧ overlapping overlap rest
  | _ => True
  end.

(** * [src/tools/calculator/main.py] *)

Module Calculator.

(** ** Python's [ast] (expression nodes, Python 3.8 to 3.13) *)

Inductive operator :=
| Add | Sub | Mult | MatMult | Div | Mod | Pow
| LShift | RShift | BitOr | BitXor | BitAnd | FloorDiv.

Inductive unaryop := Invert | Not | UAdd | USub.

(** The numeric literals: [int], [float] (by its decimal value) and the
    imaginary literal. *)
Inductive number :=
| NInt (z : Z)
| NFloat (q : Q)
| NImag (q : Q).

Inductive constant :=
| CNum (n : number)
| CBool (b : bool)
| CStr (s : string)
| CBytes (s : string)
| CNone
| CEllipsis.

#[warnings="-register-all"] Inductive expr :=
| Constant (value : constant)
| BinOp (left : expr) (op : operator) (right : expr)
| UnaryOp (op : unaryop) (operand : expr)
| Name (id : string)
| Call (func : expr) (args : list expr)
| Attribute (value : expr) (attr : string)
| Subscript (value : expr) (slice : expr)
| Compare (left : expr) (ops : list string) (comparators : list expr)
| BoolOp (op : string) (values : list expr)
| IfExp (test body orelse : expr)
| Lambda (body : expr)
| ListNode (elts : list expr)
| TupleNode (elts : list expr)
| OtherNode (class_name : string).

(** [type(node).__name__] *)
Definition node_name (e : expr) : string :=
  match e with
  | Constant _ => "Constant"
  | BinOp _ _ _ => "BinOp"
  | UnaryOp _ _ => "UnaryOp"
  | Name _ => "Name"
  | Call _ _ => "Call"
  | Attribute _ _ => "Attribute"
  | Subscript _ _ => "Subscript"
  | Compare _ _ _ => "Compare"
  | BoolOp _ _ => "BoolOp"
  | IfExp _ _ _ => "IfExp"
  | Lambda _ => "Lambda"
  | ListNode _ => "List"
  | TupleNode _ => "Tuple"
  | OtherNode n => n
  end.

Definition operator_name (op : operator) : string :=
  match op with
  | Add => "Add" | Sub => "Sub" | Mult => "Mult" | MatMult => "MatMult"
  | Div => "Div" | Mod => "Mod" | Pow => "Pow" | LShift => "LShift"
  | RShift => "RShift" | BitOr => "BitOr" | BitXor => "BitXor"
  | BitAnd => "BitAnd" | FloorDiv => "FloorDiv"
  end.

Definition unaryop_name (op : unaryop) : string :=
  match op with
  | Invert => "Invert" | Not => "Not" | UAdd => "UAdd" | USub => "USub"
  end.

(** ** Exceptions and results *)

Inductive arith_error := ZeroDivisionError | OverflowError | MemoryError.

Inductive exc :=
| ValueError (msg : string)
| TypeError
| SyntaxError
| Arith (e : arith_error).

Inductive result (A : Type) :=
| Ok (a : A)
| Err (e : exc).
Arguments Ok {A} a.
Arguments Err {A} e.

(** ** Python's numbers and the [operator] module

    The values of numeric constants and the six functions that
    [SAFE_OPS] holds.  A function returns a number or raises an
    arithmetic exception. *)
Record Numbers := {
  num : Type;
  value_of : number -> num;
  op_add : num -> num -> num + arith_error;
  op_sub : num -> num -> num + arith_error;
  op_mul : num -> num -> num + arith_error;
  op_truediv : num -> num -> num + arith_error;
  op_pow : num -> num -> num + arith_error;
  op_neg : num -> num + arith_error
}.

Section Evaluator.
Context (A : Numbers).

(** The values of [SAFE_OPS]: callables of two arguments or of one. *)
Inductive callable :=
| Binary (f : num A -> num A -> num A + arith_error)
| Unary (f : num A -> num A + arith_error).

(** The keys of [SAFE_OPS] are classes of [node.op]. *)
Inductive op_class :=
| OfBinOp (op : operator)
| OfUnaryOp (op : unaryop).

(** [SAFE_OPS.get(type(node.op))] *)
Definition SAFE_OPS (k : op_class) : option callable :=
  match k with
  | OfBinOp Add => Some (Binary (op_add A))
  | OfBinOp Sub => Some (Binary (op_sub A))
  | OfBinOp Mult => Some (Binary (op_mul A))
  | OfBinOp Div => Some (Binary (op_truediv A))
  | OfBinOp Pow => Some (Binary (op_pow A))
  | OfUnaryOp USub => Some (Unary (op_neg A))
  | _ => None
  end.

Definition returned (r : num A + arith_error) : result (num A) :=
  match r with
  | inl v => Ok v
  | inr e => Err (Arith e)
  end.

Definition call2 (f : callable) (a b : num A) : result (num A) :=
  match f with
  | Binary f => returned (f a b)
  | Unary _ => Err TypeError
  end.

Definition call1 (f : callable) (a : num A) : result (num A) :=
  match f with
  | Unary f => returned (f a)
  | Binary _ => Err TypeError
  end.

(** [eval_node]: the operator is looked up first, then the operands are
    evaluated from left to right, then the operator is applied.  The
    interpreter's stack is taken as deep enough for the expression:
    [RecursionError] is not modelled. *)
Fixpoint eval_node (node : expr) : result (num A) :=
  match node with
  | Constant (CNum n) => Ok (value_of A n)
  | BinOp lhs op rhs =>
      match SAFE_OPS (OfBinOp op) with
      | None => Err (ValueError (String.append "Unsupported operation: " (operator_name op)))
      | Some f =>
          match eval_node lhs with
          | Err e => Err e
          | Ok a =>
              match eval_node rhs with
              | Err e => Err e
              | Ok b => call2 f a b
              end
          end
      end
  | UnaryOp op operand =>
      match SAFE_OPS (OfUnaryOp op) with
      | None => Err (ValueError (String.append "Unsupported operation: " (unaryop_name op)))
      | Some f =>
          match eval_node operand with
          | Err e => Err e
          | Ok a => call1 f a
          end
      end
  | _ => Err (ValueError (String.append "Unsupported expression: " (node_name node)))
  end.

(** [safe_eval]: [parse] stands for [ast.parse(expr_str, mode='eval')]
    followed by [.body]; [None] when the string is not an expression. *)
Definition safe_eval (parse : string -> option expr) (expr_str : string) : result (num A) :=
  match parse expr_str with
  | None => Err SyntaxError
  | Some body => eval_node body
  end.

End Evaluator.

(** Expressions built from numeric literals with addition, subtraction,
    multiplication, division, power and unary negation. *)
Fixpoint arithmetic (e : expr) : bool :=
  match e with
  | Constant (CNum _) => true
  | BinOp l (Add | Sub | Mult | Div | Pow) r => arithmetic l && arithmetic r
  | UnaryOp USub x => arithmetic x
  | _ => false
  end.


(** A numeric tower kept symbolic: a result is the term that was
    computed, and only a division by a literal zero raises. *)
Inductive term :=
| TLit (n : number)
| TBin (op : operator) (a b : term)
| TNeg (a : term).

Definition is_zero (t : term) : bool :=
  match t with
  | TLit (NInt z) => (z =? 0)%Z
  | TLit (NFloat q) | TLit (NImag q) => Qeq_bool q 0
  | _ => false
  end.

Definition symbolic : Numbers := {|
  num := term;
  value_of := TLit;
  op_add := λ a b, inl (TBin Add a b);
  op_sub := λ a b, inl (TBin Sub a b);
  op_mul := λ a b, inl (TBin Mult a b);
  op_truediv := λ a b, if is_zero b then inr ZeroDivisionError else inl (TBin Div a b);
  op_pow := λ a b, inl (TBin Pow a b);
  op_neg := λ a, inl (TNeg a)
|}.


Definition lit (z : Z) : expr := Constant (CNum (NInt z)).

(** [2 + 3 * 4], [1/0 + x] and [__import__('os').system('ls')] as
    [ast.parse] reads them. *)
Definition two_plus_three_times_four : expr :=
  BinOp (lit 2) Add (BinOp (lit 3) Mult (lit 4)).




End Calculator.

(** ** Statistics and provenance *)

(** The sum of the per-file counts of a histogram. *)
Definition histogram_total (h : gmap str nat) : nat :=
  map_fold (λ _ n acc, n + acc)%nat 0%nat h.

(** One step of the loop of [get_collection_stats]. *)
Definition tally_step (source_files : gmap str nat) (md : gmap str str) : gmap str nat :=
  let source := default (py "unknown") (md !! py "source_file") in
  <[source := (default 0 (source_files !! source) + 1)%nat]> source_files.

(** A world whose only collection, ["docs"], holds two records. *)
Definition docs_world : world :=
  {| fs := {[ get_collection_path (py "docs") := Dir [doc_a; doc_b] ]}; trace := [] |}.

(** The provenance that [upload_document] writes on a chunk. *)
Definition stamped (source_file collection uploaded_at : str) (chunk : Document) : Prop :=
  metadata chunk !! py "source_file" = Some source_file
  ∧ metadata chunk !! py "collection" = Some collection
  ∧ metadata chunk !! py "uploaded_at" = Some uploaded_at.

(** ** [calculate_endpoint] *)

Module CalculatorEndpoint.
Import Calculator.

(** A JSON value as the request body carries it. *)
#[warnings="-register-all"] Inductive json :=
| JNull
| JBool (b : bool)
| JInt (z : Z)
| JFloat (q : Q)
| JStr (s : string)
| JArray (items : list json)
| JObject (fields : list (string * json)).

(** The truth value Python gives it ([if not expression]). *)
Definition truthy (v : json) : bool :=
  match v with
  | JNull => false
  | JBool b => b
  | JInt z => negb (z =? 0)%Z
  | JFloat q => negb (Qeq_bool q 0)
  | JStr s => negb (String.eqb s "")
  | JArray items => match items with [] => false | _ => true end
  | JObject fields => match fields with [] => false | _ => true end
  end.

Record MCPInput := {
  mcp_version : string;
  tool : string;
  input : gmap string json;
  metadata : gmap string json
}.

Section Endpoint.
Context (A : Numbers) (parse : string -> option expr).
(** [float(result)], which raises on a complex number and on an integer
    out of range. *)
Context (F : Type) (to_float : num A -> F + exc).

(** The ["result"] of a response; the texts of ["logs"] and
    ["traceback"] are renderings of the same fields. *)
Inductive calc_result :=
| Numeric (expression : string) (value : F)
| NoExpressionProvided
| Raised (e : exc).

Record calc_response := {
  cr_status : string;
  cr_result : calc_result
}.

Definition failure (r : calc_result) : calc_response :=
  {| cr_status := "error"; cr_result := r |}.

Definition calculate_endpoint (req : MCPInput) : calc_response :=
  let expression := default (JStr "") (input req !! "expression") in
  if negb (truthy expression) then failure NoExpressionProvided
  else
    match expression with
    | JStr s =>
        match safe_eval A parse s with
        | Ok v =>
            match to_float v with
            | inl x => {| cr_status := "success"; cr_result := Numeric s x |}
            | inr e => failure (Raised e)
            end
        | Err e => failure (Raised e)
        end
    | _ => failure (Raised TypeError)
    end.

End Endpoint.

Arguments Numeric {F} expression value.
Arguments NoExpressionProvided {F}.
Arguments Raised {F} e.
Arguments cr_status {F} c.
Arguments cr_result {F} c.
Arguments failure {F} r.
Arguments calculate_endpoint A parse {F} to_float req.

End CalculatorEndpoint.

(** ** [list_collections] *)

Record CollectionInfo := {
  ci_name : str;
  document_count : nat;
  created_at : str;
  last_updated : str
}.

(** What the environment settles during a listing: whether the base
    directory is there, which collections cannot be opened or counted,
    and the creation and modification times of a path. *)
Record listing_env := {
  base_there : bool;
  unreadable : str -> bool;
  ctime : str -> str;
  mtime : str -> str
}.

Definition base_prefix : str := CHROMA_BASE_DIR ++ [OsPath.sep].

(** The name under which a path is an entry of the base directory. *)
Definition entry_name (path : str) : option str :=
  if bool_decide (take (length base_prefix) path = base_prefix)
  then let name := drop (length base_prefix) path in
       if bool_decide (name ≠ [] ∧ OsPath.sep ∉ name) then Some name else None
  else None.

(** [os.listdir(CHROMA_BASE_DIR)], in the order the file system gives. *)
Definition listdir (w : world) : list str :=
  omap entry_name (map_to_list (fs w)).*1.

(** [os.path.isdir] *)
Definition path_isdir (p : str) : M world bool :=
  log (EvExists p) ;;;
  gets (λ w, match fs w !! p with Some (Dir _) => true | _ => false end).

(** The [try] suite of the loop of [list_collections]. *)
Definition describe (env : listing_env) (collection_name : str) : M world CollectionInfo :=
  let collection_path := get_collection_path collection_name in
  index <- chroma_open collection_path ;;
  (if unreadable env collection_name then raise IndexError else ret tt) ;;;
  ret {| ci_name := collection_name;
         document_count := length index;
         created_at := ctime env collection_path;
         last_updated := mtime env collection_path |}.

(** The loop of [list_collections]: an entry that is no directory is
    passed over, and so is one whose [try] suite raises. *)
Fixpoint list_entries (env : listing_env) (names : list str) (collections : list CollectionInfo)
    : M world (list CollectionInfo) :=
  match names with
  | [] => ret collections
  | collection_name :: rest =>
      isdir <- path_isdir (get_collection_path collection_name) ;;
      if negb isdir then list_entries env rest collections
      else
        r <- try_except (info <- describe env collection_name ;; ret (Some info))
                        (λ _, ret None) ;;
        match r with
        | Some info => list_entries env rest (collections ++ [info])
        | None => list_entries env rest collections
        end
  end.

Definition list_collections (env : listing_env) : M world (list CollectionInfo) :=
  if negb (base_there env) then ret []
  else names <- gets listdir ;; list_entries env names [].

(** What the loop appends for one entry, read off the file system. *)
Definition info_of (env : listing_env) (files : gmap str node) (collection_name : str)
    : option CollectionInfo :=
  match files !! get_collection_path collection_name with
  | Some (Dir index) =>
      if unreadable env collection_name then None
      else Some {| ci_name := collection_name;
                   document_count := length index;
                   created_at := ctime env (get_collection_path collection_name);
                   last_updated := mtime env (get_collection_path collection_name) |}
  | _ => None
  end.

(** ** The source of a chunk *)

(** The source a chunk is counted under. *)
Definition source_of (md : gmap str str) : str :=
  default (py "unknown") (md !! py "source_file").

(** * Properties *)

(** ** [os.path] on examples *)

Example splitext_report : OsPath.splitext (py "notes/report.v2.PDF") = (py "notes/report.v2", py ".PDF").
Proof. reflexivity. Qed.

Example splitext_dotfile : OsPath.splitext (py ".bashrc") = (py ".bashrc", []).
Proof. reflexivity. Qed.

Example splitext_dots : OsPath.splitext (py "a/..x.md") = (py "a/..x", py ".md").
Proof. reflexivity. Qed.

Example join_simple : OsPath.join (py "kb_storage") (py "docs") = py "kb_storage/docs".
Proof. reflexivity. Qed.

(** ** Properties of the score *)







(** ** Validation in [upload_document] *)

Lemma supported_lookup_None (e : str) :
  SUPPORTED_EXTENSIONS !! e = None ↔ e ∉ supported_formats.
Proof.
  unfold SUPPORTED_EXTENSIONS. rewrite <- not_elem_of_list_to_map. reflexivity.
Qed.

Lemma isalnum_true (P : Platform) (s : str) :
  isalnum P s = true ↔ s ≠ [] ∧ Forall (λ c, isalnum_char P c = true) s.
Proof.
  destruct s as [|c s].
  - simpl. split; [discriminate | intros [H _]; congruence].
  - unfold isalnum.
    rewrite forallb_forall, Forall_forall. setoid_rewrite list_elem_of_In.
    split; [intros H; split; [discriminate | exact H] | intros [_ H]; exact H].
Qed.

(** Which names pass the test [collection.replace('_', '').replace('-', '').isalnum()]. *)
Lemma name_ok_spec (P : Platform) (name : str) :
  name_ok P name = true ↔
    Forall (λ c, isalnum_char P c = true ∨ c = 45%N ∨ c = 95%N) name
    ∧ Exists (λ c, isalnum_char P c = true ∧ c ≠ 45%N ∧ c ≠ 95%N) name.
Proof.
  unfold name_ok, PyStr.replace_empty. rewrite isalnum_true.
  rewrite !Forall_forall, Exists_exists.
  do 2 setoid_rewrite list_elem_of_filter. split.
  - intros [Hne Hall]. split.
    + intros c Hc.
      destruct (decide (c = 45%N)); [tauto|]. destruct (decide (c = 95%N)); [tauto|].
      left. apply Hall. tauto.
    + destruct (filter _ (filter _ name)) as [|c l] eqn:E; [congruence|].
      assert (Hc : c ∈ filter (λ x, x ≠ 45%N) (filter (λ x, x ≠ 95%N) name))
        by (rewrite E; left).
      rewrite !list_elem_of_filter in Hc. exists c. split; [tauto|].
      split; [apply Hall|]; tauto.
  - intros [Hall (c & Hc & Ha & H1 & H2)]. split.
    + intros E.
      assert (Hin : c ∈ filter (λ x, x ≠ 45%N) (filter (λ x, x ≠ 95%N) name))
        by (rewrite !list_elem_of_filter; tauto).
      rewrite E in Hin. inversion Hin.
    + intros x (H45 & H95 & Hx). destruct (Hall x Hx) as [?|[?|?]]; congruence.
Qed.

Lemma upload_bad_extension (P : Platform) (env : upload_env) (f : UploadFile) (c : str) (w : world) :
  SUPPORTED_EXTENSIONS !! ext_of P (filename f) = None →
  upload_document P env f c w
  = (Raise (HTTPException 400 (UnsupportedFileType (ext_of P (filename f)))), w).
Proof. intros H. unfold upload_document. rewrite H. reflexivity. Qed.

Lemma upload_bad_name (P : Platform) (env : upload_env) (f : UploadFile) (c : str) (w : world) :
  is_Some (SUPPORTED_EXTENSIONS !! ext_of P (filename f)) →
  name_ok P c = false →
  upload_document P env f c w = (Raise (HTTPException 400 BadCollectionName), w).
Proof. intros [l Hl] H. unfold upload_document. rewrite Hl, H. reflexivity. Qed.

(** Once both tests pass, the answer is what the [try] statement leaves. *)
Lemma upload_validated (P : Platform) (env : upload_env) (f : UploadFile) (c : str) (w : world) :
  is_Some (SUPPORTED_EXTENSIONS !! ext_of P (filename f)) →
  name_ok P c = true →
  upload_document P env f c w
  = let (r, fr) :=
      try_finally
        (try_except (upload_try P env f (ext_of P (filename f)) c)
           (λ e, raise (HTTPException 500 (ErrorProcessingDocument e))))
        upload_finally
        {| the_world := w; temp_file := false; temp_path := None |} in
    (r, the_world fr).
Proof. intros [l Hl] H. unfold upload_document. rewrite Hl, H. reflexivity. Qed.

(** Unfolding the monad down to state passing. *)
Ltac run_monad :=
  unfold path_exists, unlink, chroma_open, add_documents, from_documents, rmtree;
  unfold bind, ret, raise, gets, modify, lift, log, set_fs, on_world,
    bind_temp_file, bind_temp_path;
  cbn.

(** What the [finally] suite can raise. *)
Lemma upload_finally_raises (fr fr' : frame) (e : exn) :
  upload_finally fr = (Raise e, fr') → e = UnboundLocalError "temp_path" ∨ e = OSError.
Proof.
  unfold upload_finally. run_monad.
  destruct (temp_file fr); [|discriminate].
  destruct (temp_path fr) as [p|]; [|intros E; inversion E; auto].
  case_bool_decide; [|discriminate].
  cbn. destruct (fs (the_world fr) !! p) as [[?|?]|]; cbn;
    intros E; inversion E; auto.
Qed.

(** A [try] statement whose handler re-raises a wrapped exception and
    whose [finally] suite may raise itself. *)
Lemma try_wrapped_outcome {S A} (m : M S A) (wrap : exn -> exn) (f : M S unit) (s : S) :
  match (try_finally (try_except m (λ e, raise (wrap e))) f s).1 with
  | Ret _ => True
  | Raise e => (∃ cause, e = wrap cause) ∨ (∃ s1 s2, f s1 = (Raise e, s2))
  end.
Proof.
  unfold try_finally, try_except, raise.
  destruct (m s) as [[a|e] s1]; destruct (f s1) as [[[]|e'] s2] eqn:E; cbn; eauto.
Qed.

(** A validated upload ends with a response, a 500 that wraps the
    exception caught, or an exception of the [finally] suite. *)
Lemma upload_validated_outcome (P : Platform) (env : upload_env) (f : UploadFile) (c : str) (w : world) :
  is_Some (SUPPORTED_EXTENSIONS !! ext_of P (filename f)) →
  name_ok P c = true →
  match (upload_document P env f c w).1 with
  | Ret _ => True
  | Raise e => (∃ cause, e = HTTPException 500 (ErrorProcessingDocument cause))
               ∨ e = UnboundLocalError "temp_path" ∨ e = OSError
  end.
Proof.
  intros Hext Hname. rewrite upload_validated by assumption.
  pose proof (try_wrapped_outcome (upload_try P env f (ext_of P (filename f)) c)
                (λ e, HTTPException 500 (ErrorProcessingDocument e)) upload_finally
                {| the_world := w; temp_file := false; temp_path := None |}) as H.
  destruct (try_finally _ _ _) as [r fr]. cbn in *.
  destruct r as [a|e]; [exact I|].
  destruct H as [H|(s1 & s2 & H)]; [left; exact H | right; eapply upload_finally_raises, H].
Qed.

(** ** What the index operations leave alone *)

Lemma steady_bind {A B} (m : M world A) (k : A -> M world B) :
  steady m → (∀ a, steady (k a)) → steady (bind m k).
Proof.
  intros Hm Hk w. unfold bind. destruct (Hm w) as [Ht Hf].
  destruct (m w) as [[a|e] w1]; cbn in *; [|auto].
  destruct (Hk a w1) as [Ht' Hf']. split; [etrans; eassumption | auto].
Qed.

Lemma steady_ret {A} (a : A) : steady (ret a).
Proof. intros w. cbn. auto. Qed.

Lemma steady_raise {A} (e : exn) : steady (@raise world A e).
Proof. intros w. cbn. auto. Qed.

Lemma steady_lift {A} (r : outcome A) : steady (lift r).
Proof. intros w. cbn. auto. Qed.

Lemma steady_gets {A} (g : world -> A) : steady (gets g).
Proof. intros w. cbn. auto. Qed.

Lemma steady_log (e : event) : steady (log e).
Proof. intros w. cbn. split; [by apply prefix_app_r | auto]. Qed.

Lemma steady_try_except {A} (m : M world A) (h : exn -> M world A) :
  steady m → (∀ e, steady (h e)) → steady (try_except m h).
Proof.
  intros Hm Hh w. unfold try_except. destruct (Hm w) as [Ht Hf].
  destruct (m w) as [[a|e] w1]; cbn in *; [auto|].
  destruct (Hh e w1) as [Ht' Hf']. split; [etrans; eassumption | auto].
Qed.

Create HintDb steady.
#[local] Hint Resolve steady_ret steady_raise steady_lift steady_gets steady_log : steady.

Lemma steady_path_exists (p : str) : steady (path_exists p).
Proof. unfold path_exists. apply steady_bind; auto with steady. Qed.

(** Putting a directory where no regular file is. *)
Lemma steady_put_dir (p : str) (index : list Document) (w : world) :
  (∀ c, fs w !! p ≠ Some (File c)) →
  ∀ q c, fs w !! q = Some (File c) → <[p := Dir index]> (fs w) !! q = Some (File c).
Proof.
  intros Hp q c Hq. rewrite lookup_insert_ne; [exact Hq|].
  intros ->. exact (Hp c Hq).
Qed.

Lemma steady_chroma_open (p : str) : steady (chroma_open p).
Proof.
  intros w. unfold chroma_open. run_monad.
  destruct (fs w !! p) as [[c|index]|] eqn:E; cbn.
  - split; [by apply prefix_app_r | auto].
  - split; [by apply prefix_app_r | auto].
  - split; [by apply prefix_app_r|]. apply steady_put_dir. congruence.
Qed.

Lemma steady_add_documents (fault : option nat) (p : str) (chunks : list Document) :
  steady (add_documents fault p chunks).
Proof.
  intros w. unfold add_documents. run_monad.
  destruct (fs w !! p) as [[c|index]|] eqn:E; cbn;
    [split; [by apply prefix_app_r | auto] | | split; [by apply prefix_app_r | auto]].
  destruct fault as [k|]; cbn;
    (split; [by apply prefix_app_r | apply steady_put_dir; congruence]).
Qed.

#[local] Hint Resolve steady_path_exists steady_chroma_open steady_add_documents : steady.

Lemma steady_create_or_append (fault : option nat) (c : str) (chunks : list Document) :
  steady (create_or_append fault c chunks).
Proof.
  unfold create_or_append, from_documents.
  apply steady_bind; [auto with steady|]. intros [|]; apply steady_bind; auto with steady.
Qed.

Lemma steady_loader_load (P : Platform) (l : loader) (p : str) : steady (loader_load P l p).
Proof.
  unfold loader_load. apply steady_bind; [auto with steady|]. intros _.
  apply steady_bind; [auto with steady|]. intros [[c|index]|]; auto with steady.
Qed.

Lemma steady_index_upload (P : Platform) (env : upload_env) (f : UploadFile) (c p : str) :
  steady (index_upload P env f c p).
Proof.
  unfold index_upload. apply steady_bind; [auto with steady|]. intros l.
  apply steady_bind; [apply steady_loader_load|]. intros docs.
  destruct (split_documents P docs); [auto with steady|].
  apply steady_bind; [apply steady_create_or_append | auto with steady].
Qed.

(** ** The scratch copy *)

Lemma upload_try_saved (P : Platform) (env : upload_env) (f : UploadFile) (c : str) (w : world) :
  scratch_fault env = None →
  upload_try P env f (ext_of P (filename f)) c
    {| the_world := w; temp_file := false; temp_path := None |}
  = let (r, w2) := index_upload P env f c (scratch_path P env f) (saved P env f w) in
    (r, {| the_world := w2; temp_file := true; temp_path := Some (scratch_path P env f) |}).
Proof. intros H. unfold upload_try, save_upload. rewrite H. reflexivity. Qed.

Lemma upload_finally_unlinks (p : str) (c : list Byte.byte) (w : world) :
  fs w !! p = Some (File c) →
  upload_finally {| the_world := w; temp_file := true; temp_path := Some p |}
  = (Ret tt, {| the_world := {| fs := delete p (fs w);
                                trace := (trace w ++ [EvExists p]) ++ [EvUnlink p] |};
                temp_file := true; temp_path := Some p |}).
Proof.
  intros H. unfold upload_finally. run_monad.
  rewrite bool_decide_eq_true_2 by (rewrite H; eauto). cbn. rewrite H. reflexivity.
Qed.

(** A validated upload whose scratch copy was written: the result of
    indexing (an exception wrapped in a 500), and the world that
    indexing leaves, less the scratch copy. *)
Lemma upload_saved_run (P : Platform) (env : upload_env) (f : UploadFile) (c : str) (w : world) :
  is_Some (SUPPORTED_EXTENSIONS !! ext_of P (filename f)) →
  name_ok P c = true →
  scratch_fault env = None →
  let p := scratch_path P env f in
  let run := index_upload P env f c p (saved P env f w) in
  upload_document P env f c w
  = (match run.1 with
     | Ret a => Ret a
     | Raise e => Raise (HTTPException 500 (ErrorProcessingDocument e))
     end,
     {| fs := delete p (fs run.2);
        trace := (trace run.2 ++ [EvExists p]) ++ [EvUnlink p] |}).
Proof.
  intros Hext Hname Hs p run. rewrite upload_validated by assumption.
  unfold try_finally, try_except. rewrite upload_try_saved by assumption.
  fold p. fold run.
  destruct (steady_index_upload P env f c p (saved P env f w)) as [_ Hfiles].
  specialize (Hfiles p (file f)). fold run in Hfiles.
  assert (Hp : fs run.2 !! p = Some (File (file f))).
  { apply Hfiles. cbn. apply lookup_insert_eq. }
  destruct run as [[a|e] w2]; simpl in Hp; unfold raise; cbv beta iota;
    rewrite (upload_finally_unlinks p (file f) w2 Hp); reflexivity.
Qed.



(** ** The extension test *)

(** C7.  An upload whose extension [os.path.splitext(filename)[1].lower()]
    is none of [.pdf], [.txt], [.md], [.docx] is answered with the 400
    of the extension test; the world it returns is the one it was
    given: no file written, no index touched, no storage access in
    the trace. *)
Theorem C7_unsupported_extension_rejected (P : Platform) (env : upload_env) (f : UploadFile)
    (c : str) (w : world) :
  ext_of P (filename f) ∉ supported_formats →
  upload_document P env f c w
  = (Raise (HTTPException 400 (UnsupportedFileType (ext_of P (filename f)))), w).
Proof. intros H. apply upload_bad_extension, supported_lookup_None, H. Qed.

Lemma C7_unsupported_extension_rejected_witness :
  (ext_of reference (filename setup_exe) ∉ supported_formats)
  ∧ upload_document reference demo_env setup_exe (py "docs") empty_world
    = (Raise (HTTPException 400 (UnsupportedFileType (py ".exe"))), empty_world).
Proof.
  assert (H : ext_of reference (filename setup_exe) ∉ supported_formats).
  { apply supported_lookup_None. vm_compute. reflexivity. }
  split; [exact H|].
  exact (C7_unsupported_extension_rejected reference demo_env setup_exe (py "docs") empty_world H).
Defined.

(** ** The collection name *)

(** C2, as the specification states it, fails in both directions: the
    one-letter name U+00E9, outside the charset, passes the test of
    [upload_document] ([str.isalnum] knows every Unicode letter and
    digit), and the name ["_"], inside the charset, fails it on every
    platform (nothing is left of it for [isalnum]). *)
Lemma C2_charset_counterexample :
  (charset_ok [233%N] = false ∧ name_ok reference [233%N] = true)
  ∧ (charset_ok (py "_") = true ∧ ∀ P : Platform, name_ok P (py "_") = false).
Proof. repeat split. Qed.

(** C2, amended.  A name passes the test only if each of its characters
    is alphanumeric for [str.isalnum], a hyphen or an underscore, and
    every such name with at least one alphanumeric character passes.
    A name that fails the test is answered with the 400 of the name
    test and the world is returned as it was given (no storage access);
    a name that passes is never answered with that 400. *)
Theorem C2_name_validation (P : Platform) (name : str) :
  (name_ok P name = true →
     Forall (λ c, isalnum_char P c = true ∨ c = 45%N ∨ c = 95%N) name)
  ∧ (Forall (λ c, isalnum_char P c = true ∨ c = 45%N ∨ c = 95%N) name →
     Exists (λ c, isalnum_char P c = true ∧ c ≠ 45%N ∧ c ≠ 95%N) name →
     name_ok P name = true)
  ∧ (∀ env f w, is_Some (SUPPORTED_EXTENSIONS !! ext_of P (filename f)) →
       name_ok P name = false →
       upload_document P env f name w = (Raise (HTTPException 400 BadCollectionName), w))
  ∧ (∀ env f w, is_Some (SUPPORTED_EXTENSIONS !! ext_of P (filename f)) →
       name_ok P name = true →
       ¬ rejects_name (upload_document P env f name w).1).
Proof.
  split; [intros H; apply name_ok_spec in H; tauto|].
  split; [intros H1 H2; apply name_ok_spec; tauto|].
  split; [intros env f w; apply upload_bad_name|].
  intros env f w Hext Hname Hrej.
  pose proof (upload_validated_outcome P env f name w Hext Hname) as H.
  unfold rejects_name in Hrej. rewrite Hrej in H.
  destruct H as [[cause H]|[H|H]]; discriminate.
Qed.

Lemma C2_name_validation_witness :
  name_ok reference (py "my-docs_2") = true
  ∧ Forall (λ c, isalnum_char reference c = true ∨ c = 45%N ∨ c = 95%N) (py "my-docs_2")
  ∧ upload_document reference demo_env notes_txt (py "a b") empty_world
    = (Raise (HTTPException 400 BadCollectionName), empty_world)
  ∧ ¬ rejects_name (upload_document reference demo_env notes_txt (py "my-docs_2") empty_world).1.
Proof.
  destruct (C2_name_validation reference (py "my-docs_2")) as (H1 & _ & _ & H4).
  destruct (C2_name_validation reference (py "a b")) as (_ & _ & H3 & _).
  assert (Hext : is_Some (SUPPORTED_EXTENSIONS !! ext_of reference (filename notes_txt)))
    by (vm_compute; eexists; reflexivity).
  split; [reflexivity|]. split; [apply H1; reflexivity|].
  split; [apply H3; [exact Hext | reflexivity] | apply H4; [exact Hext | reflexivity]].
Defined.

(** ** A document without text *)

Lemma loader_load_saved (P : Platform) (env : upload_env) (f : UploadFile) (w : world) (l : loader) :
  let p := scratch_path P env f in
  loader_load P l p (saved P env f w)
  = (load P l p (file f),
     {| fs := fs (saved P env f w); trace := trace (saved P env f w) ++ [EvReadFile p] |}).
Proof.
  intros p. unfold loader_load. run_monad. fold p.
  rewrite lookup_insert_eq. reflexivity.
Qed.

(** When the splitter returns no chunk, the 400 raised inside the [try]
    suite is caught by [except Exception] and answered as a 500; the
    file system ends as it started. *)
Lemma upload_no_chunks (P : Platform) (env : upload_env) (f : UploadFile) (c : str) (w : world)
    (l : loader) (docs : list Document) :
  is_Some (SUPPORTED_EXTENSIONS !! ext_of P (filename f)) →
  name_ok P c = true →
  scratch_fault env = None →
  fs w !! scratch_path P env f = None →
  get_loader_for_file P (scratch_path P env f) = Ret l →
  load P l (scratch_path P env f) (file f) = Ret docs →
  split_documents P docs = [] →
  (upload_document P env f c w).1
  = Raise (HTTPException 500 (ErrorProcessingDocument (HTTPException 400 NoTextExtracted)))
  ∧ fs (upload_document P env f c w).2 = fs w.
Proof.
  intros Hext Hname Hs Hfresh Hl Hload Hsplit.
  rewrite upload_saved_run by assumption.
  assert (Hrun : index_upload P env f c (scratch_path P env f) (saved P env f w)
                 = (Raise (HTTPException 400 NoTextExtracted),
                    {| fs := fs (saved P env f w);
                       trace := trace (saved P env f w) ++ [EvReadFile (scratch_path P env f)] |})).
  { unfold index_upload, bind at 1, lift. rewrite Hl.
    unfold bind. rewrite loader_load_saved, Hload, Hsplit. reflexivity. }
  rewrite Hrun. cbn [fst snd fs saved]. split; [reflexivity|].
  rewrite delete_insert_eq. apply delete_insert_id, Hfresh.
Qed.

(** C3, on the code: the empty text file uploaded to ["docs"] is
    answered with status 500, a server fault, where the claim has a
    user-input error; the 400 of the guard is the cause the 500 wraps.
    The file system is left as it was. *)
Theorem C3_empty_document_answered_500 :
  (upload_document reference demo_env empty_txt (py "docs") empty_world).1
  = Raise (HTTPException 500 (ErrorProcessingDocument (HTTPException 400 NoTextExtracted)))
  ∧ fs (upload_document reference demo_env empty_txt (py "docs") empty_world).2 = ∅.
Proof.
  apply (upload_no_chunks reference demo_env empty_txt (py "docs") empty_world
           TextLoader
           [ {| page_content := [];
                metadata := {[ py "source" := scratch_path reference demo_env empty_txt ]} |} ]).
  - vm_compute. eexists. reflexivity.
  - reflexivity.
  - reflexivity.
  - apply lookup_empty.
  - vm_compute. reflexivity.
  - reflexivity.
  - reflexivity.
Qed.

(** ** Stored counts *)

Lemma create_or_append_adds (name : str) (b : list Document) (w : world) :
  no_file_at w name →
  ∃ w', create_or_append None name b w = (Ret tt, w')
        ∧ fs w' !! get_collection_path name = Some (Dir (index_at w name ++ b)).
Proof.
  intros Hnf. unfold create_or_append, from_documents, index_at. run_monad.
  destruct (fs w !! get_collection_path name) as [[c|index]|] eqn:E.
  - destruct (Hnf c E).
  - rewrite bool_decide_eq_true_2 by eauto. cbn. rewrite E. cbn. rewrite E. cbn.
    eexists. split; [reflexivity|]. cbn. apply lookup_insert_eq.
  - rewrite bool_decide_eq_false_2 by (intros [? ?]; discriminate). cbn. rewrite E. cbn.
    rewrite lookup_insert_eq. cbn.
    eexists. split; [reflexivity|]. cbn. apply lookup_insert_eq.
Qed.

Lemma ingest_all_adds (name : str) (batches : list (list Document)) (w : world) :
  no_file_at w name →
  batches ≠ [] →
  ∃ w', ingest_all name batches w = (Ret tt, w')
        ∧ fs w' !! get_collection_path name = Some (Dir (index_at w name ++ concat batches)).
Proof.
  revert w. induction batches as [|b bs IH]; intros w Hnf Hne; [congruence|].
  destruct (create_or_append_adds name b w Hnf) as (w1 & Hrun & Hdir).
  cbn [ingest_all]. unfold bind. rewrite Hrun.
  destruct bs as [|b' bs'].
  - exists w1. split; [reflexivity|]. cbn. rewrite app_nil_r. exact Hdir.
  - destruct (IH w1) as (w2 & Hrun2 & Hdir2); [intros c; rewrite Hdir; discriminate | discriminate |].
    exists w2. split; [exact Hrun2|].
    rewrite Hdir2. unfold index_at at 1. rewrite Hdir.
    change (concat (b :: b' :: bs')) with (b ++ concat (b' :: bs')).
    rewrite app_assoc. reflexivity.
Qed.

Lemma stats_of_dir (name : str) (index : list Document) (w : world) :
  fs w !! get_collection_path name = Some (Dir index) →
  (get_collection_stats false name w).1
  = Ret {| st_collection := name;
           total_chunks := length index;
           source_files := tally (map metadata index);
           file_count := size (tally (map metadata index)) |}.
Proof.
  intros H. unfold get_collection_stats, try_except. run_monad.
  rewrite bool_decide_eq_true_2 by eauto. cbn. rewrite H. reflexivity.
Qed.

Lemma length_concat_sum {A} (ls : list (list A)) :
  length (concat ls) = sum_list (length <$> ls).
Proof. induction ls as [|l ls IH]; cbn; [reflexivity|]. rewrite length_app, IH. reflexivity. Qed.

(** C4.  For a collection name, valid or not, whose path holds no
    regular file, after any non-empty sequence of [create_or_append]
    calls (the index not raising) the statistics report [total_chunks]
    as what was stored before plus the sum of the batch sizes; and one
    more call with any batch, one already ingested included, adds
    exactly the size of that batch. *)
Theorem C4_chunk_counts_add_up (name : str) (batches : list (list Document)) (w : world) :
  no_file_at w name →
  batches ≠ [] →
  ∃ w' st,
    ingest_all name batches w = (Ret tt, w')
    ∧ (get_collection_stats false name w').1 = Ret st
    ∧ total_chunks st = (stored w name + sum_list (length <$> batches))%nat
    ∧ ∀ b, stored (create_or_append None name b w').2 name = (stored w' name + length b)%nat.
Proof.
  intros Hnf Hne.
  destruct (ingest_all_adds name batches w Hnf Hne) as (w' & Hrun & Hdir).
  exists w'. eexists. split; [exact Hrun|].
  split; [apply stats_of_dir, Hdir|]. split.
  - cbn. rewrite length_app, length_concat_sum. reflexivity.
  - intros b.
    destruct (create_or_append_adds name b w') as (w2 & Hrun2 & Hdir2);
      [intros c; rewrite Hdir; discriminate|].
    rewrite Hrun2. cbn [snd]. unfold stored. unfold index_at at 1. rewrite Hdir2.
    apply length_app.
Qed.

Lemma C4_chunk_counts_add_up_witness :
  ∃ w' st,
    ingest_all (py "docs") [[doc_a; doc_b]; [doc_a; doc_b]; [doc_a]] empty_world = (Ret tt, w')
    ∧ (get_collection_stats false (py "docs") w').1 = Ret st
    ∧ total_chunks st = (stored empty_world (py "docs")
                         + sum_list (length <$> [[doc_a; doc_b]; [doc_a; doc_b]; [doc_a]]))%nat
    ∧ ∀ b, stored (create_or_append None (py "docs") b w').2 (py "docs")
           = (stored w' (py "docs") + length b)%nat.
Proof.
  apply (C4_chunk_counts_add_up (py "docs")
           [[doc_a; doc_b]; [doc_a; doc_b]; [doc_a]] empty_world).
  - intros c. cbn. rewrite lookup_empty. discriminate.
  - discriminate.
Defined.

(** ** Query *)

Lemma knn_sound_empty (P : Platform) (q : str) : knn_sound P → knn P q [] = [].
Proof.
  intros H. destruct (knn P q []) as [|hit l] eqn:E; [reflexivity|].
  assert (Hin : hit.1 ∈ @nil Document) by (apply (H q); rewrite E; left).
  inversion Hin.
Qed.

Lemma query_absent (P : Platform) (fault : bool) (request : QueryRequest) (w : world) :
  fs w !! get_collection_path (collection request) = None →
  query_collection P fault request w
  = (Raise (HTTPException 404 (CollectionNotFound (collection request))),
     {| fs := fs w;
        trace := trace w ++ [EvExists (get_collection_path (collection request))] |}).
Proof.
  intros H. unfold query_collection. run_monad.
  rewrite bool_decide_eq_false_2 by (rewrite H; intros [? ?]; discriminate). reflexivity.
Qed.

Lemma path_exists_run (p : str) (w : world) :
  path_exists p w
  = (Ret (bool_decide (is_Some (fs w !! p))),
     {| fs := fs w; trace := trace w ++ [EvExists p] |}).
Proof. reflexivity. Qed.

Lemma try_except_wrapped {S A} (m : M S A) (wrap : exn -> exn) (s : S) :
  match (try_except m (λ e, raise (wrap e)) s).1 with
  | Ret _ => True
  | Raise e => ∃ cause, e = wrap cause
  end.
Proof. unfold try_except, raise. destruct (m s) as [[a|e] s1]; cbn; eauto. Qed.

(** Past the existence test every exception is answered as a 500. *)
Lemma query_present (P : Platform) (fault : bool) (request : QueryRequest) (w : world) :
  is_Some (fs w !! get_collection_path (collection request)) →
  match (query_collection P fault request w).1 with
  | Ret _ => True
  | Raise e => ∃ cause, e = HTTPException 500 (ErrorQueryingCollection cause)
  end.
Proof.
  intros H. unfold query_collection, bind at 1.
  rewrite path_exists_run, bool_decide_eq_true_2 by exact H.
  cbv beta iota. simpl negb. cbv iota.
  apply (try_except_wrapped _ (λ e, HTTPException 500 (ErrorQueryingCollection e))).
Qed.

Lemma query_empty_index (P : Platform) (request : QueryRequest) (w : world) :
  knn_sound P →
  fs w !! get_collection_path (collection request) = Some (Dir []) →
  (query_collection P false request w).1
  = Ret {| qr_query := query request; documents := []; count := 0 |}.
Proof.
  intros Hk H. unfold query_collection, try_except, similarity_search_with_score. run_monad.
  rewrite bool_decide_eq_true_2 by eauto. cbn. rewrite H. cbn.
  rewrite (knn_sound_empty P _ Hk), take_nil. reflexivity.
Qed.

(** C5, as the specification states it, fails where the storage path is
    a regular file: no collection exists there in the specification's
    sense, and the query is answered with a 500, not with the 404. *)
Lemma C5_file_at_path_counterexample :
  let w := {| fs := {[ get_collection_path (py "notes") := File [] ]}; trace := [] |} in
  let request := {| query := py "hello"; collection := py "notes"; top_k := 5 |} in
  exists_as_directory w (py "notes") = false
  ∧ is_not_found (query_collection reference false request w).1 = false
  ∧ (query_collection reference false request w).1
    = Raise (HTTPException 500 (ErrorQueryingCollection IndexError)).
Proof. vm_compute. auto. Qed.

(** C5, amended.  A query is answered with the 404 exactly when the
    collection's storage path does not exist (a path that exists is not
    tested for being a directory); a query against a directory whose
    index holds no record, the index not raising, returns the empty
    list with [count = 0]. *)
Theorem C5_query_not_found (P : Platform) (fault : bool) (request : QueryRequest) (w : world) :
  (is_not_found (query_collection P fault request w).1 = true
   ↔ fs w !! get_collection_path (collection request) = None)
  ∧ (knn_sound P → fault = false →
     fs w !! get_collection_path (collection request) = Some (Dir []) →
     (query_collection P fault request w).1
     = Ret {| qr_query := query request; documents := []; count := 0 |}).
Proof.
  split.
  - destruct (fs w !! get_collection_path (collection request)) as [n|] eqn:E.
    + pose proof (query_present P fault request w) as H. rewrite E in H.
      specialize (H (ltac:(eauto))).
      destruct (query_collection P fault request w).1 as [a|e].
      * split; discriminate.
      * destruct H as [cause ->]. split; discriminate.
    + rewrite query_absent by exact E. cbn. tauto.
  - intros Hk -> H. apply query_empty_index; assumption.
Qed.

Lemma reference_knn_sound : knn_sound reference.
Proof.
  intros q index hit H. cbn in H. apply list_elem_of_fmap in H as (d & -> & Hd). exact Hd.
Qed.

Lemma C5_query_not_found_witness :
  is_not_found (query_collection reference false hello_docs empty_world).1 = true
  ∧ (query_collection reference false hello_docs empty_docs_world).1
    = Ret {| qr_query := py "hello"; documents := []; count := 0 |}.
Proof.
  split.
  - apply (C5_query_not_found reference false hello_docs empty_world). apply lookup_empty.
  - apply (C5_query_not_found reference false hello_docs empty_docs_world);
      [exact reference_knn_sound | reflexivity | vm_compute; reflexivity].
Defined.

(** ** Delete *)


(** What [delete_collection] does at a path that exists. *)
Lemma delete_present (stops : option nat) (name : str) (n : node) (w : world) :
  fs w !! get_collection_path name = Some n →
  let p := get_collection_path name in
  let t := (trace w ++ [EvExists p]) ++ [EvRmtree p] in
  delete_collection stops name w
  = match n, stops with
    | Dir index, None =>
        (Ret {| dr_status := "success"; dr_collection := name |},
         {| fs := delete p (fs w); trace := t |})
    | Dir index, Some k =>
        (Raise (HTTPException 500 (ErrorDeletingCollection OSError)),
         {| fs := <[p := Dir (drop k index)]> (fs w); trace := t |})
    | File _, _ =>
        (Raise (HTTPException 500 (ErrorDeletingCollection OSError)),
         {| fs := fs w; trace := t |})
    end.
Proof.
  intros H p t. unfold delete_collection, try_except. run_monad. fold p in H |- *.
  rewrite bool_decide_eq_true_2 by eauto. cbn. rewrite H.
  destruct n as [c|index]; [reflexivity|]. destruct stops; reflexivity.
Qed.




(** ** Chunking and reassembly *)

(** The later chunks, each without its overlap, spell the text from the
    overlap on. *)
Lemma split_tails (size overlap : nat) (text : str) :
  concat (map (drop overlap) (Chunker.split size overlap text)) = drop overlap text.
Proof.
  funelim (Chunker.split size overlap text).
  - destruct text; cbn; [by rewrite drop_nil | by rewrite app_nil_r].
  - cbn. by rewrite app_nil_r.
  - cbn [map concat].
    match goal with IH : concat _ = drop _ _ |- _ => rewrite IH end.
    rewrite drop_drop.
    replace (Chunker.cut_point overlap (take size text) - overlap + overlap)%nat
      with (Chunker.cut_point overlap (take size text)) by lia.
    apply drop_take_drop. lia.
Qed.

Lemma reassemble_split (size overlap : nat) (text : str) :
  Chunker.reassemble overlap (Chunker.split size overlap text) = text.
Proof.
  funelim (Chunker.split size overlap text).
  - destruct text; cbn; [reflexivity | by rewrite app_nil_r].
  - cbn. by rewrite app_nil_r.
  - cbn [Chunker.reassemble]. rewrite split_tails, drop_drop.
    replace (Chunker.cut_point overlap (take size text) - overlap + overlap)%nat
      with (Chunker.cut_point overlap (take size text)) by lia.
    apply take_drop.
Qed.

(** The chunker keeps what section 4.1 asks of it. *)

Lemma starts_with_length (u v : str) :
  Chunker.starts_with u v = true → (length u <= length v)%nat.
Proof.
  revert v. induction u as [|a u IH]; intros [|b v] Hs; cbn in *; try lia; try discriminate.
  apply andb_true_iff in Hs as [_ Hs]. apply IH in Hs. lia.
Qed.

Lemma last_end_from_le (sep s : str) (i : nat) (acc : option nat) (r : nat) :
  Chunker.last_end_from sep s i acc = Some r →
  (∀ a, acc = Some a → a <= i + length s)%nat →
  (r <= i + length s)%nat.
Proof.
  revert i acc. induction s as [|x s IH]; intros i acc H Hacc; cbn in *.
  - apply Hacc in H. lia.
  - apply IH in H; [lia|]. intros a Ha.
    destruct (Chunker.starts_with sep (x :: s)) eqn:Es.
    + injection Ha as <-. apply starts_with_length in Es. cbn in Es. lia.
    + apply Hacc in Ha. lia.
Qed.

Lemma cut_point_le (overlap : nat) (window : str) :
  (Chunker.cut_point overlap window <= length window)%nat.
Proof.
  unfold Chunker.cut_point.
  destruct (list_find _ _) as [[i c]|] eqn:E; cbn; [|lia].
  apply list_find_Some in E as (Hi & _ & _).
  apply list_elem_of_lookup_2, list_elem_of_omap in Hi as (sep & _ & Hsep).
  apply (last_end_from_le sep window 0%nat None c Hsep). intros a Ha. discriminate.
Qed.

Lemma split_chunk_sizes (size overlap : nat) (text : str) :
  (overlap < size)%nat →
  Forall (λ chunk, 0 < length chunk <= size)%nat (Chunker.split size overlap text).
Proof.
  intros Hlt. funelim (Chunker.split size overlap text).
  - destruct text; [constructor|]. clear Heq Heqcall.
    constructor; [cbn [length] in *; lia | constructor].
  - exfalso. clear Heq Heq0 Heqcall. pose proof (cut_point_le overlap (take size text)) as Hle.
    unfold Chunker.cut_point in *.
    destruct (list_find _ _) as [[i c]|] eqn:E; cbn in *.
    + apply list_find_Some in E as (_ & Hc & _). lia.
    + rewrite length_take in *. lia.
  - constructor; [|auto]. clear Heq Heq0 Heqcall.
    pose proof (cut_point_le overlap (take size text)) as Hle.
    rewrite length_take in *. lia.
Qed.

Lemma split_head (size overlap : nat) (text c : str) (rest : list str) :
  Chunker.split size overlap text = c :: rest → take overlap c = take overlap text.
Proof.
  funelim (Chunker.split size overlap text); intros E.
  - destruct text; [discriminate|]. by injection E as <- _.
  - by injection E as <- _.
  - injection E as <- _. rewrite take_take. f_equal.
    match goal with Hlt : (overlap < _)%nat |- _ => clear -Hlt; lia end.
Qed.

Lemma split_overlapping (size overlap : nat) (text : str) :
  overlapping overlap (Chunker.split size overlap text).
Proof.
  funelim (Chunker.split size overlap text).
  - destruct text; exact I.
  - exact I.
  - set (c := Chunker.cut_point overlap (take size text)) in *.
    destruct (Chunker.split size overlap (drop (c - overlap) text)) as [|c2 rest] eqn:E;
      [exact I|].
    split; [|assumption].
    rewrite (split_head _ _ _ _ _ E).
    assert (Hc : (c <= length text)%nat).
    { pose proof (cut_point_le overlap (take size text)) as Hle.
      rewrite length_take in Hle. fold c in Hle. lia. }
    rewrite length_take_le by exact Hc.
    match goal with Hlt : (overlap < c)%nat |- _ => clear -Hc Hlt end.
    rewrite <- (take_drop c text) at 1.
    rewrite drop_app_le by (rewrite length_take; lia).
    rewrite take_app_length'; [reflexivity|].
    rewrite length_drop, length_take. lia.
Qed.

(** C6.  Splitting a text with chunk size 1000 and overlap 200 and then
    joining the first chunk with every later chunk less its leading 200
    units gives the text back; no chunk is longer than 1000 units and
    each later chunk starts with the last 200 units of the one before. *)
Theorem C6_chunks_reassemble (text : str) :
  Chunker.reassemble Chunker.chunk_overlap (Chunker.split_text text) = text
  ∧ Forall (λ chunk, 0 < length chunk <= Chunker.chunk_size)%nat (Chunker.split_text text)
  ∧ overlapping Chunker.chunk_overlap (Chunker.split_text text).
Proof.
  unfold Chunker.split_text. split; [apply reassemble_split|].
  split; [apply split_chunk_sizes; unfold Chunker.chunk_overlap, Chunker.chunk_size; lia|].
  apply split_overlapping.
Qed.

(** The scenario of the specification: 2500 characters give three chunks. *)
Example split_2500 :
  map length (Chunker.split_text (replicate 2500 97%N)) = [1000; 1000; 900]%nat.
Proof. vm_compute. reflexivity. Qed.

(** ** The calculator *)

Section CalculatorProperties.
Import Calculator.


(** A value comes out of arithmetic expressions only. *)
Lemma eval_node_value (A : Numbers) (e : expr) (v : num A) :
  eval_node A e = Ok v → arithmetic e = true.
Proof.
  revert v. induction e as [c|l IHl op r IHr|op x IHx| | | | | | | | | | |]; intros v; cbn;
    try discriminate.
  - destruct c; [reflexivity | discriminate..].
  - destruct op; cbn; try discriminate;
      (destruct (eval_node A l) as [a|?]; [|discriminate];
       destruct (eval_node A r) as [b|?]; [|discriminate];
       intros _; rewrite (IHl a eq_refl), (IHr b eq_refl); reflexivity).
  - destruct op; cbn; try discriminate.
    destruct (eval_node A x) as [a|?]; [|discriminate].
    intros _. exact (IHx a eq_refl).
Qed.





End CalculatorProperties.

(** ** The copy fault and the count of a successful upload *)

(** When copying the upload into the scratch file fails, [temp_file] is
    bound and [temp_path] is not: the [finally] suite raises
    [UnboundLocalError] and the scratch file stays. *)
Lemma upload_copy_fault (P : Platform) (env : upload_env) (f : UploadFile) (c : str) (w : world) :
  is_Some (SUPPORTED_EXTENSIONS !! ext_of P (filename f)) →
  name_ok P c = true →
  scratch_fault env = Some AtCopy →
  let p := scratch_path P env f in
  upload_document P env f c w
  = (Raise (UnboundLocalError "temp_path"),
     {| fs := <[p := File []]> (fs w);
        trace := (trace w ++ [EvCreateFile p]) ++ [EvWriteFile p] |}).
Proof.
  intros Hext Hname Hs p. rewrite upload_validated by assumption.
  unfold try_finally, try_except, upload_try, save_upload. rewrite Hs. reflexivity.
Qed.

Lemma create_or_append_returns (fault : option nat) (name : str) (b : list Document) (w w' : world) :
  create_or_append fault name b w = (Ret tt, w') →
  no_file_at w name
  ∧ fs w' = <[get_collection_path name := Dir (index_at w name ++ b)]> (fs w).
Proof.
  unfold create_or_append, from_documents, index_at, no_file_at. run_monad.
  destruct (fs w !! get_collection_path name) as [[x|index]|] eqn:E.
  - rewrite bool_decide_eq_true_2 by eauto. cbn. rewrite E. discriminate.
  - rewrite bool_decide_eq_true_2 by eauto. cbn. rewrite E. cbn. rewrite E.
    destruct fault; cbn; [discriminate|]. intros H. injection H as <-.
    split; [discriminate | reflexivity].
  - rewrite bool_decide_eq_false_2 by (intros [? ?]; discriminate). cbn. rewrite E. cbn.
    rewrite lookup_insert_eq.
    destruct fault; cbn; [discriminate|]. intros H. injection H as <-.
    split; [discriminate|]. cbn. apply insert_insert_eq.
Qed.

(** What indexing did when it returns a response. *)
Lemma index_upload_returns (P : Platform) (env : upload_env) (f : UploadFile) (c : str) (w : world)
    (response : UploadResponse) (w2 : world) :
  index_upload P env f c (scratch_path P env f) (saved P env f w) = (Ret response, w2) →
  (0 < ur_chunks_added response)%nat
  ∧ no_file_at (saved P env f w) c
  ∧ ∃ chunks, ur_chunks_added response = length chunks
              ∧ fs w2 = <[get_collection_path c := Dir (index_at (saved P env f w) c ++ chunks)]>
                          (fs (saved P env f w)).
Proof.
  unfold index_upload, bind at 1, lift.
  destruct (get_loader_for_file P (scratch_path P env f)) as [l|e]; [|discriminate].
  unfold bind at 1. rewrite loader_load_saved.
  destruct (load P l _ (file f)) as [docs|e]; [|discriminate].
  destruct (split_documents P docs) as [|d ds]; [discriminate|].
  unfold bind, ret.
  match goal with |- context [create_or_append ?fl c ?b ?w1] =>
    destruct (create_or_append fl c b w1) as [[[]|e] w3] eqn:E; [|discriminate];
    apply create_or_append_returns in E as [Hnf Hfs]
  end.
  intros H. injection H as <- ->. cbn [ur_chunks_added].
  split; [cbn; lia|]. split; [exact Hnf|].
  exists (map (add_metadata (filename f) c (now env)) (d :: ds)).
  split; [reflexivity | exact Hfs].
Qed.

(** An upload that is answered with a response has appended to the
    collection exactly the chunks it reports, at least one. *)
Lemma upload_success_adds (P : Platform) (env : upload_env) (f : UploadFile) (c : str) (w : world)
    (response : UploadResponse) :
  is_Some (SUPPORTED_EXTENSIONS !! ext_of P (filename f)) →
  name_ok P c = true →
  scratch_fault env = None →
  fs w !! scratch_path P env f = None →
  (upload_document P env f c w).1 = Ret response →
  (0 < ur_chunks_added response)%nat
  ∧ stored (upload_document P env f c w).2 c = (stored w c + ur_chunks_added response)%nat.
Proof.
  intros Hext Hname Hs Hfresh. rewrite upload_saved_run by assumption. cbv zeta.
  set (p := scratch_path P env f) in *.
  destruct (index_upload P env f c p (saved P env f w)) as [[r|e] w2] eqn:E;
    cbn [fst snd fs]; [|discriminate].
  intros H. injection H as ->.
  apply index_upload_returns in E as (Hpos & Hnf & chunks & Hlen & Hfs).
  split; [exact Hpos|].
  assert (Hne : get_collection_path c ≠ p).
  { intros Heq. apply (Hnf (file f)). rewrite Heq. cbn. apply lookup_insert_eq. }
  assert (Hsame : index_at (saved P env f w) c = index_at w c).
  { unfold index_at. cbn. fold p. by rewrite !lookup_insert_ne. }
  unfold stored. unfold index_at at 1. cbn [fs].
  rewrite lookup_delete_ne by congruence. rewrite Hfs, lookup_insert_eq, Hsame, Hlen.
  apply length_app.
Qed.

Lemma histogram_total_insert (h : gmap str nat) (s : str) (n : nat) :
  histogram_total (<[s := n]> h) = (n + histogram_total h - default 0 (h !! s))%nat.
Proof.
  unfold histogram_total.
  destruct (h !! s) as [k|] eqn:E; cbn.
  - rewrite <- insert_delete_eq.
    rewrite map_fold_insert_L; [|intros; lia | apply lookup_delete_eq].
    rewrite (map_fold_delete_L _ _ s k h); [lia | intros; lia | exact E].
  - rewrite map_fold_insert_L; [lia | intros; lia | exact E].
Qed.

Lemma tally_step_total (h : gmap str nat) (md : gmap str str) :
  histogram_total (tally_step h md) = S (histogram_total h).
Proof.
  unfold tally_step. rewrite histogram_total_insert.
  destruct (h !! _) as [k|] eqn:E; cbn; [|lia].
  assert (k <= histogram_total h)%nat; [|lia].
  unfold histogram_total.
  rewrite (map_fold_delete_L _ _ (default (py "unknown") (md !! py "source_file")) k h);
    [lia | intros; lia | exact E].
Qed.

Lemma tally_steps_total (mds : list (gmap str str)) (h : gmap str nat) :
  histogram_total (foldl tally_step h mds) = (histogram_total h + length mds)%nat.
Proof.
  revert h. induction mds as [|md mds IH]; intros h; cbn; [lia|].
  rewrite IH, tally_step_total. lia.
Qed.

Lemma tally_steps_positive (mds : list (gmap str str)) (h : gmap str nat) :
  map_Forall (λ _ n, 1 <= n)%nat h → map_Forall (λ _ n, 1 <= n)%nat (foldl tally_step h mds).
Proof.
  revert h. induction mds as [|md mds IH]; intros h Hh; cbn; [exact Hh|].
  apply IH. unfold tally_step. apply map_Forall_insert_2; [lia | exact Hh].
Qed.

Lemma size_le_histogram_total (h : gmap str nat) :
  map_Forall (λ _ n, 1 <= n)%nat h → (size h <= histogram_total h)%nat.
Proof.
  induction h as [|s n h Hs _ IH] using map_first_key_ind.
  - intros _. rewrite map_size_empty. lia.
  - intros Hall. apply map_Forall_insert in Hall as [Hn Hh]; [|exact Hs].
    rewrite map_size_insert_None by exact Hs.
    rewrite histogram_total_insert, Hs. cbn. specialize (IH Hh). lia.
Qed.

Lemma tally_is_fold (mds : list (gmap str str)) : tally mds = foldl tally_step ∅ mds.
Proof. reflexivity. Qed.

(** X1.  The statistics of a collection directory are consistent: every
    stored chunk is counted under exactly one source (its
    [source_file], or ["unknown"]), so the per-file counts add up to
    [total_chunks], no source is listed with a zero count, and
    [file_count] is at most [total_chunks]. *)
Theorem stats_histogram_consistent (name : str) (index : list Document) (w : world) :
  fs w !! get_collection_path name = Some (Dir index) →
  ∃ st, (get_collection_stats false name w).1 = Ret st
        ∧ total_chunks st = length index
        ∧ histogram_total (source_files st) = total_chunks st
        ∧ map_Forall (λ _ n, 1 <= n)%nat (source_files st)
        ∧ file_count st = size (source_files st)
        ∧ (file_count st <= total_chunks st)%nat.
Proof.
  intros H. eexists. split; [apply stats_of_dir, H|]. cbn.
  assert (Hpos : map_Forall (λ _ n, 1 <= n)%nat (tally (map metadata index))).
  { rewrite tally_is_fold. apply tally_steps_positive, map_Forall_empty. }
  assert (Htot : histogram_total (tally (map metadata index)) = length index).
  { rewrite tally_is_fold, tally_steps_total, length_map.
    unfold histogram_total. rewrite map_fold_empty. lia. }
  repeat split; try assumption.
  rewrite <- Htot. apply size_le_histogram_total, Hpos.
Qed.

Lemma stats_histogram_consistent_witness :
  ∃ st, (get_collection_stats false (py "docs") docs_world).1 = Ret st
        ∧ total_chunks st = length [doc_a; doc_b]
        ∧ histogram_total (source_files st) = total_chunks st
        ∧ map_Forall (λ _ n, 1 <= n)%nat (source_files st)
        ∧ file_count st = size (source_files st)
        ∧ (file_count st <= total_chunks st)%nat.
Proof.
  apply (stats_histogram_consistent (py "docs") [doc_a; doc_b] docs_world).
  apply lookup_singleton_eq.
Defined.

(** ** Handlers that only read *)

Lemma stats_absent (fault : bool) (name : str) (w : world) :
  fs w !! get_collection_path name = None →
  get_collection_stats fault name w
  = (Raise (HTTPException 404 (CollectionNotFound name)),
     {| fs := fs w; trace := trace w ++ [EvExists (get_collection_path name)] |}).
Proof.
  intros H. unfold get_collection_stats. run_monad.
  rewrite bool_decide_eq_false_2 by (rewrite H; intros [? ?]; discriminate). reflexivity.
Qed.

Lemma stats_present (fault : bool) (name : str) (n : node) (w : world) :
  fs w !! get_collection_path name = Some n →
  fs (get_collection_stats fault name w).2 = fs w
  ∧ match (get_collection_stats fault name w).1 with
    | Ret st => ∃ index, n = Dir index ∧ fault = false ∧ total_chunks st = length index
    | Raise e => ∃ cause, e = HTTPException 500 (ErrorGettingStats cause)
    end.
Proof.
  intros H. unfold get_collection_stats, try_except. run_monad.
  rewrite bool_decide_eq_true_2 by eauto. cbn. rewrite H.
  destruct n as [c|index]; cbn; [eauto|].
  destruct fault; cbn; eauto.
Qed.

Lemma stats_not_found_and_read_only_aux (fault : bool) (name : str) (w : world) :
  (is_not_found (get_collection_stats fault name w).1 = true
   ↔ fs w !! get_collection_path name = None)
  ∧ fs (get_collection_stats fault name w).2 = fs w.
Proof.
  destruct (fs w !! get_collection_path name) as [n|] eqn:E.
  - destruct (stats_present fault name n w E) as [Hfs Hres].
    destruct (get_collection_stats fault name w) as [[st|e] w']; cbn in *.
    + split; [split; discriminate | exact Hfs].
    + destruct Hres as [cause ->]. split; [split; discriminate | exact Hfs].
  - rewrite (stats_absent fault name w E). cbn. split; [tauto | reflexivity].
Qed.

(** [get_collection_stats] answers 404 exactly when the collection's
    path does not exist; at a path that exists it answers with the
    statistics or with a 500; and it never changes the file system. *)
Theorem stats_not_found_and_read_only (fault : bool) (name : str) (w : world) :
  (is_not_found (get_collection_stats fault name w).1 = true
   ↔ fs w !! get_collection_path name = None)
  ∧ fs (get_collection_stats fault name w).2 = fs w
  ∧ match (get_collection_stats fault name w).1 with
    | Ret st => ∃ index, fs w !! get_collection_path name = Some (Dir index)
                         ∧ total_chunks st = length index
    | Raise (HTTPException code _) => code = 404 ∨ code = 500
    | Raise _ => False
    end.
Proof.
  destruct (fs w !! get_collection_path name) as [n|] eqn:E.
  - destruct (stats_present fault name n w E) as [Hfs Hres].
    destruct (get_collection_stats fault name w) as [[st|e] w']; cbn in *.
    + destruct Hres as (index & -> & _ & Hlen). split; [split; discriminate|]. eauto.
    + destruct Hres as [cause ->]. split; [split; discriminate|]. auto.
  - rewrite (stats_absent fault name w E). cbn. split; [tauto | auto].
Qed.

Lemma query_reads_only (P : Platform) (fault : bool) (request : QueryRequest) (w : world) :
  fs (query_collection P fault request w).2 = fs w.
Proof.
  destruct (fs w !! get_collection_path (collection request)) as [n|] eqn:E.
  - unfold query_collection, try_except, similarity_search_with_score. run_monad.
    rewrite bool_decide_eq_true_2 by eauto. cbn. rewrite E.
    destruct n as [c|index]; cbn; [reflexivity|]. destruct fault; reflexivity.
  - rewrite (query_absent P fault request w E). reflexivity.
Qed.

(** [query_collection] never changes the file system, whatever the
    request and whether it succeeds or fails; a response carries as
    many documents as its [count] says, each with the score of its
    distance. *)
Theorem query_read_only_and_counted (P : Platform) (fault : bool) (request : QueryRequest) (w : world) :
  fs (query_collection P fault request w).2 = fs w
  ∧ match (query_collection P fault request w).1 with
    | Ret response =>
        count response = length (documents response)
        ∧ qr_query response = query request
        ∧ Forall (λ h, score h = similarity (distance h)) (documents response)
    | Raise (HTTPException code _) => code = 404 ∨ code = 500
    | Raise _ => False
    end.
Proof.
  split; [apply query_reads_only|].
  destruct (fs w !! get_collection_path (collection request)) as [n|] eqn:E.
  - unfold query_collection, try_except, similarity_search_with_score. run_monad.
    rewrite bool_decide_eq_true_2 by eauto. cbn. rewrite E.
    destruct n as [c|index]; cbn; [auto|]. destruct fault; cbn; [auto|].
    split; [reflexivity|]. split; [reflexivity|].
    unfold format_results. apply Forall_forall. intros h Hh.
    apply list_elem_of_fmap in Hh as (r & -> & _). reflexivity.
  - rewrite (query_absent P fault request w E). cbn. auto.
Qed.

(** ** Delete, then ask again *)



(** ** Uploads that fail, uploads that succeed *)

Lemma create_or_append_raises (name : str) (b : list Document) (w w' : world) (e : exn) :
  create_or_append None name b w = (Raise e, w') → fs w' = fs w.
Proof.
  unfold create_or_append, from_documents. run_monad.
  destruct (fs w !! get_collection_path name) as [[x|index]|] eqn:E.
  - rewrite bool_decide_eq_true_2 by eauto. cbn. rewrite E. cbn.
    intros H. injection H as _ <-. reflexivity.
  - rewrite bool_decide_eq_true_2 by eauto. cbn. rewrite E. cbn. rewrite E. discriminate.
  - rewrite bool_decide_eq_false_2 by (intros [? ?]; discriminate). cbn. rewrite E. cbn.
    rewrite lookup_insert_eq. discriminate.
Qed.

Lemma index_upload_raises (P : Platform) (env : upload_env) (f : UploadFile) (c : str) (w w2 : world)
    (e : exn) :
  index_fault env = None →
  index_upload P env f c (scratch_path P env f) (saved P env f w) = (Raise e, w2) →
  fs w2 = fs (saved P env f w).
Proof.
  intros Hfault. unfold index_upload, bind at 1, lift.
  destruct (get_loader_for_file P (scratch_path P env f)) as [l|e0];
    [|intros H; injection H as _ <-; reflexivity].
  unfold bind at 1. rewrite loader_load_saved.
  destruct (load P l _ (file f)) as [docs|e0];
    [|intros H; injection H as _ <-; reflexivity].
  destruct (split_documents P docs) as [|d ds];
    [intros H; injection H as _ <-; reflexivity|].
  unfold bind, ret. rewrite Hfault.
  match goal with |- context [create_or_append None c ?b ?w1] =>
    destruct (create_or_append None c b w1) as [[[]|e0] w3] eqn:E; [discriminate|];
    apply create_or_append_raises in E
  end.
  intros H. injection H as _ <-. exact E.
Qed.

(** X3.  An upload that is answered with an exception, the scratch file
    written to a free path and the index itself not raising, leaves the
    file system exactly as it was: nothing is stored, no collection is
    created, no scratch file stays. *)
Theorem failed_upload_changes_nothing (P : Platform) (env : upload_env) (f : UploadFile)
    (c : str) (w : world) (e : exn) :
  scratch_fault env = None →
  index_fault env = None →
  fs w !! scratch_path P env f = None →
  (upload_document P env f c w).1 = Raise e →
  fs (upload_document P env f c w).2 = fs w.
Proof.
  intros Hs Hi Hfresh.
  destruct (SUPPORTED_EXTENSIONS !! ext_of P (filename f)) as [l|] eqn:Hext;
    [|rewrite upload_bad_extension by exact Hext; reflexivity].
  destruct (name_ok P c) eqn:Hname;
    [|rewrite upload_bad_name by eauto; reflexivity].
  rewrite upload_saved_run by eauto. cbv zeta.
  destruct (index_upload P env f c (scratch_path P env f) (saved P env f w))
    as [[r|e0] w2] eqn:E; cbn [fst snd fs]; [discriminate|].
  intros _. apply index_upload_raises in E; [|exact Hi]. rewrite E. cbn.
  rewrite delete_insert_eq. apply delete_insert_id, Hfresh.
Qed.

Lemma failed_upload_changes_nothing_witness :
  (upload_document reference demo_env empty_txt (py "docs") docs_world).1
  = Raise (HTTPException 500 (ErrorProcessingDocument (HTTPException 400 NoTextExtracted)))
  ∧ fs (upload_document reference demo_env empty_txt (py "docs") docs_world).2 = fs docs_world.
Proof.
  assert (H : (upload_document reference demo_env empty_txt (py "docs") docs_world).1
              = Raise (HTTPException 500
                         (ErrorProcessingDocument (HTTPException 400 NoTextExtracted))))
    by (vm_compute; reflexivity).
  split; [exact H|].
  apply (failed_upload_changes_nothing reference demo_env empty_txt (py "docs") docs_world
           (HTTPException 500 (ErrorProcessingDocument (HTTPException 400 NoTextExtracted)))
           eq_refl eq_refl); [|exact H].
  vm_compute. reflexivity.
Defined.

Lemma add_metadata_stamped (source_file collection uploaded_at : str) (chunk : Document) :
  stamped source_file collection uploaded_at
    (add_metadata source_file collection uploaded_at chunk).
Proof.
  unfold stamped, add_metadata. cbn.
  assert (py "uploaded_at" ≠ py "collection") by (vm_compute; discriminate).
  assert (py "uploaded_at" ≠ py "source_file") by (vm_compute; discriminate).
  assert (py "collection" ≠ py "source_file") by (vm_compute; discriminate).
  repeat split; by simplify_map_eq.
Qed.

(** What indexing stored when it returns a response: the chunks of the
    splitter, each with its text kept and its provenance written. *)
Lemma index_upload_stores (P : Platform) (env : upload_env) (f : UploadFile) (c : str) (w : world)
    (response : UploadResponse) (w2 : world) :
  index_upload P env f c (scratch_path P env f) (saved P env f w) = (Ret response, w2) →
  ∃ chunks,
    response = {| ur_status := "success"; ur_collection := c;
                  ur_chunks_added := length chunks; ur_filename := filename f |}
    ∧ chunks ≠ []
    ∧ Forall (stamped (filename f) c (now env)) chunks
    ∧ no_file_at (saved P env f w) c
    ∧ fs w2 = <[get_collection_path c := Dir (index_at (saved P env f w) c ++ chunks)]>
                (fs (saved P env f w)).
Proof.
  unfold index_upload, bind at 1, lift.
  destruct (get_loader_for_file P (scratch_path P env f)) as [l|e]; [|discriminate].
  unfold bind at 1. rewrite loader_load_saved.
  destruct (load P l _ (file f)) as [docs|e]; [|discriminate].
  destruct (split_documents P docs) as [|d ds]; [discriminate|].
  unfold bind, ret.
  match goal with |- context [create_or_append ?fl c ?b ?w1] =>
    destruct (create_or_append fl c b w1) as [[[]|e] w3] eqn:E; [|discriminate];
    apply create_or_append_returns in E as [Hnf Hfs]
  end.
  intros H. injection H as <- ->.
  exists (map (add_metadata (filename f) c (now env)) (d :: ds)).
  split; [reflexivity|]. split; [discriminate|]. split; [|split; [exact Hnf | exact Hfs]].
  apply Forall_forall. intros x Hx. apply list_elem_of_fmap in Hx as (y & -> & _).
  apply add_metadata_stamped.
Qed.

Lemma upload_create_fault (P : Platform) (env : upload_env) (f : UploadFile) (c : str) (w : world) :
  is_Some (SUPPORTED_EXTENSIONS !! ext_of P (filename f)) →
  name_ok P c = true →
  scratch_fault env = Some AtCreate →
  upload_document P env f c w
  = (Raise (HTTPException 500 (ErrorProcessingDocument OSError)), w).
Proof.
  intros Hext Hname Hs. rewrite upload_validated by assumption.
  unfold try_finally, try_except, upload_try, save_upload. rewrite Hs.
  destruct w. reflexivity.
Qed.

(** A response is given only to an upload that passed both validations
    and wrote its scratch copy. *)
Lemma upload_returns_validated (P : Platform) (env : upload_env) (f : UploadFile) (c : str)
    (w : world) (response : UploadResponse) :
  (upload_document P env f c w).1 = Ret response →
  is_Some (SUPPORTED_EXTENSIONS !! ext_of P (filename f))
  ∧ name_ok P c = true
  ∧ scratch_fault env = None.
Proof.
  destruct (SUPPORTED_EXTENSIONS !! ext_of P (filename f)) as [l|] eqn:Hext;
    [|rewrite upload_bad_extension by exact Hext; discriminate].
  destruct (name_ok P c) eqn:Hname;
    [|rewrite upload_bad_name by eauto; discriminate].
  destruct (scratch_fault env) as [[|]|] eqn:Hs.
  - rewrite upload_create_fault by eauto. discriminate.
  - rewrite upload_copy_fault by eauto. discriminate.
  - eauto.
Qed.

Lemma tally_steps_same_source (mds : list (gmap str str)) (h : gmap str nat) (s : str) :
  Forall (λ md, md !! py "source_file" = Some s) mds →
  mds ≠ [] →
  foldl tally_step h mds !! s = Some (default 0 (h !! s) + length mds)%nat
  ∧ ∀ s', s' ≠ s → foldl tally_step h mds !! s' = h !! s'.
Proof.
  revert h. induction mds as [|md mds IH]; intros h Hall Hne; [congruence|].
  apply Forall_cons in Hall as [Hmd Hall]. cbn [foldl].
  assert (Hstep : tally_step h md = <[s := (default 0 (h !! s) + 1)%nat]> h)
    by (unfold tally_step; rewrite Hmd; reflexivity).
  rewrite Hstep. destruct mds as [|md' mds'].
  - cbn. rewrite lookup_insert_eq. split; [reflexivity|].
    intros s' Hs'. by rewrite lookup_insert_ne.
  - destruct (IH (<[s := (default 0 (h !! s) + 1)%nat]> h) Hall) as [Hs Ho]; [discriminate|].
    split.
    + rewrite Hs, lookup_insert_eq. cbn. f_equal. lia.
    + intros s' Hs'. rewrite Ho by exact Hs'. by rewrite lookup_insert_ne.
Qed.

(** An upload that is answered with a response, its scratch file
    written to a free path, has appended to the collection the chunks
    it reports, at least one, each stamped with the file's name, the
    collection and the upload time; no other path has changed and the
    scratch file is gone.  The statistics asked next report the old
    count plus the chunks added, and that many more chunks under the
    file's name. *)
Theorem successful_upload_is_recorded (P : Platform) (env : upload_env) (f : UploadFile)
    (c : str) (w : world) (response : UploadResponse) :
  fs w !! scratch_path P env f = None →
  (upload_document P env f c w).1 = Ret response →
  let w' := (upload_document P env f c w).2 in
  ∃ chunks,
    chunks ≠ []
    ∧ response = {| ur_status := "success"; ur_collection := c;
                    ur_chunks_added := length chunks; ur_filename := filename f |}
    ∧ Forall (stamped (filename f) c (now env)) chunks
    ∧ fs w' = <[get_collection_path c := Dir (index_at w c ++ chunks)]> (fs w)
    ∧ ∃ st, (get_collection_stats false c w').1 = Ret st
            ∧ total_chunks st = (stored w c + length chunks)%nat
            ∧ source_files st !! filename f
              = Some (default 0 (tally (map metadata (index_at w c)) !! filename f)
                      + length chunks)%nat.
Proof.
  intros Hfresh Hret w'. subst w'.
  destruct (upload_returns_validated P env f c w response Hret) as (Hext & Hname & Hs).
  revert Hret. rewrite upload_saved_run by assumption. cbv zeta.
  set (p := scratch_path P env f) in *.
  destruct (index_upload P env f c p (saved P env f w)) as [[r|e] w2] eqn:E;
    cbn [fst snd fs]; [|discriminate].
  intros H. injection H as ->.
  apply index_upload_stores in E as (chunks & Hresp & Hne & Hst & Hnf & Hfs).
  assert (Hpath : get_collection_path c ≠ p).
  { intros Heq. apply (Hnf (file f)). rewrite Heq. cbn. apply lookup_insert_eq. }
  assert (Hsame : index_at (saved P env f w) c = index_at w c).
  { unfold index_at. cbn. fold p. by rewrite !lookup_insert_ne. }
  assert (Hfinal : delete p (fs w2) = <[get_collection_path c := Dir (index_at w c ++ chunks)]> (fs w)).
  { rewrite Hfs, Hsame. cbn. fold p.
    rewrite delete_insert_ne by congruence.
    rewrite delete_insert_eq, delete_insert_id by exact Hfresh. reflexivity. }
  exists chunks. split; [exact Hne|]. split; [exact Hresp|]. split; [exact Hst|].
  split; [exact Hfinal|].
  eexists. split.
  { apply (stats_of_dir c (index_at w c ++ chunks)). cbn [fs]. rewrite Hfinal.
    apply lookup_insert_eq. }
  cbn [total_chunks source_files]. split; [unfold stored; apply length_app|].
  rewrite map_app, tally_is_fold, foldl_app, <- tally_is_fold.
  destruct (tally_steps_same_source (map metadata chunks)
              (tally (map metadata (index_at w c))) (filename f)) as [Hsrc _].
  - apply Forall_fmap. eapply Forall_impl; [exact Hst|]. intros d (H1 & _). exact H1.
  - destruct chunks; [congruence | discriminate].
  - rewrite Hsrc, length_map. reflexivity.
Qed.

Lemma successful_upload_is_recorded_witness :
  let w' := (upload_document reference demo_env notes_txt (py "docs") docs_world).2 in
  ∃ chunks,
    chunks ≠ []
    ∧ {| ur_status := "success"; ur_collection := py "docs";
         ur_chunks_added := 1; ur_filename := py "notes.txt" |}
      = {| ur_status := "success"; ur_collection := py "docs";
           ur_chunks_added := length chunks; ur_filename := filename notes_txt |}
    ∧ Forall (stamped (filename notes_txt) (py "docs") (now demo_env)) chunks
    ∧ fs w' = <[get_collection_path (py "docs") := Dir (index_at docs_world (py "docs") ++ chunks)]>
                (fs docs_world)
    ∧ ∃ st, (get_collection_stats false (py "docs") w').1 = Ret st
            ∧ total_chunks st = (stored docs_world (py "docs") + length chunks)%nat
            ∧ source_files st !! filename notes_txt
              = Some (default 0 (tally (map metadata (index_at docs_world (py "docs")))
                                 !! filename notes_txt)
                      + length chunks)%nat.
Proof.
  apply (successful_upload_is_recorded reference demo_env notes_txt (py "docs") docs_world
           {| ur_status := "success"; ur_collection := py "docs";
              ur_chunks_added := 1; ur_filename := py "notes.txt" |}).
  - vm_compute. reflexivity.
  - vm_compute. reflexivity.
Defined.

(** X4.  When copying the upload into the scratch file fails, the upload is
    not answered with an [HTTPException]: the [finally] suite reads
    [temp_path], which was never assigned, and raises
    [UnboundLocalError]; the scratch file that was created stays. *)
Theorem copy_fault_leaves_scratch_file (P : Platform) (env : upload_env) (f : UploadFile)
    (c : str) (w : world) :
  is_Some (SUPPORTED_EXTENSIONS !! ext_of P (filename f)) →
  name_ok P c = true →
  scratch_fault env = Some AtCopy →
  let p := scratch_path P env f in
  let after := upload_document P env f c w in
  after.1 = Raise (UnboundLocalError "temp_path")
  ∧ fs after.2 !! p = Some (File [])
  ∧ (∀ q, q ≠ p → fs after.2 !! q = fs w !! q)
  ∧ trace after.2 = (trace w ++ [EvCreateFile p]) ++ [EvWriteFile p].
Proof.
  intros Hext Hname Hs p after. subst after.
  rewrite (upload_copy_fault P env f c w Hext Hname Hs). fold p. cbn [fst snd fs trace].
  split; [reflexivity|]. split; [apply lookup_insert_eq|].
  split; [intros q Hq; by rewrite lookup_insert_ne | reflexivity].
Qed.

Lemma copy_fault_leaves_scratch_file_witness :
  let env := {| tmp_stem := py "/tmp/tmpab12cd34"; scratch_fault := Some AtCopy;
                now := py "2024-05-01T12:00:00"; index_fault := None |} in
  let p := scratch_path reference env notes_txt in
  let after := upload_document reference env notes_txt (py "docs") empty_world in
  after.1 = Raise (UnboundLocalError "temp_path")
  ∧ fs after.2 !! p = Some (File [])
  ∧ (∀ q, q ≠ p → fs after.2 !! q = fs empty_world !! q)
  ∧ trace after.2 = (trace empty_world ++ [EvCreateFile p]) ++ [EvWriteFile p].
Proof.
  apply (copy_fault_leaves_scratch_file reference
           {| tmp_stem := py "/tmp/tmpab12cd34"; scratch_fault := Some AtCopy;
              now := py "2024-05-01T12:00:00"; index_fault := None |}
           notes_txt (py "docs") empty_world).
  - vm_compute. eexists. reflexivity.
  - vm_compute. reflexivity.
  - reflexivity.
Defined.

(** ** Names and paths *)

Lemma collection_path_of_relative (x : N) (rest : str) :
  x ≠ OsPath.sep →
  get_collection_path (x :: rest) = CHROMA_BASE_DIR ++ OsPath.sep :: x :: rest.
Proof.
  intros Hx. unfold get_collection_path, OsPath.join.
  rewrite (proj2 (N.eqb_neq x OsPath.sep) Hx). reflexivity.
Qed.

Lemma collection_path_of_absolute (rest : str) :
  get_collection_path (OsPath.sep :: rest) = OsPath.sep :: rest.
Proof. reflexivity. Qed.

(** On a platform where neither ["/"] nor ["."] counts as alphanumeric
    (CPython is one), a name that passes the test of [upload_document]
    holds no separator and no dot, its path is the base directory, a
    separator and the name, and two such names with the same path are
    the same name: an upload never leaves [kb_storage]. *)
Theorem valid_name_stays_in_base (P : Platform) (name : str) :
  isalnum_char P 47 = false →
  isalnum_char P 46 = false →
  name_ok P name = true →
  (47%N ∉ name)
  ∧ (46%N ∉ name)
  ∧ get_collection_path name = CHROMA_BASE_DIR ++ OsPath.sep :: name
  ∧ ∀ other, name_ok P other = true →
             get_collection_path other = get_collection_path name → other = name.
Proof.
  intros Hsep Hdot Hname.
  assert (Hshape : ∀ n, name_ok P n = true →
            (47%N ∉ n) ∧ (46%N ∉ n) ∧ get_collection_path n = CHROMA_BASE_DIR ++ OsPath.sep :: n).
  { intros n Hn. apply name_ok_spec in Hn as [Hall Hex].
    rewrite Forall_forall in Hall.
    assert (H47 : 47%N ∉ n) by (intros Hin; destruct (Hall _ Hin) as [?|[?|?]]; congruence).
    assert (H46 : 46%N ∉ n) by (intros Hin; destruct (Hall _ Hin) as [?|[?|?]]; congruence).
    split; [exact H47|]. split; [exact H46|].
    destruct n as [|x rest]; [by apply Exists_nil in Hex|].
    apply collection_path_of_relative. intros ->. apply H47. left. }
  destruct (Hshape name Hname) as (H47 & H46 & Hpath).
  split; [exact H47|]. split; [exact H46|]. split; [exact Hpath|].
  intros other Hother Heq.
  destruct (Hshape other Hother) as (_ & _ & Hpath').
  rewrite Hpath, Hpath' in Heq. apply app_inv_head in Heq. congruence.
Qed.

Lemma valid_name_stays_in_base_witness :
  (47%N ∉ py "my-docs_2")
  ∧ (46%N ∉ py "my-docs_2")
  ∧ get_collection_path (py "my-docs_2") = CHROMA_BASE_DIR ++ OsPath.sep :: py "my-docs_2"
  ∧ ∀ other, name_ok reference other = true →
             get_collection_path other = get_collection_path (py "my-docs_2") →
             other = py "my-docs_2".
Proof.
  apply (valid_name_stays_in_base reference (py "my-docs_2")); reflexivity.
Defined.

(** X5.  [query_collection], [get_collection_stats] and [delete_collection]
    take the collection name as it comes: for a name that starts with
    ["/"] the path they test, open and remove is that absolute path
    itself, not a path under [kb_storage]. *)
Theorem absolute_name_leaves_base (P : Platform) (rest : str) (w : world) :
  get_collection_path (OsPath.sep :: rest) = OsPath.sep :: rest
  ∧ (∀ fault q k,
       is_not_found
         (query_collection P fault {| query := q; collection := OsPath.sep :: rest; top_k := k |} w).1
       = true
       ↔ fs w !! (OsPath.sep :: rest) = None)
  ∧ (∀ fault,
       is_not_found (get_collection_stats fault (OsPath.sep :: rest) w).1 = true
       ↔ fs w !! (OsPath.sep :: rest) = None)
  ∧ (∀ index, fs w !! (OsPath.sep :: rest) = Some (Dir index) →
       (delete_collection None (OsPath.sep :: rest) w).1
       = Ret {| dr_status := "success"; dr_collection := OsPath.sep :: rest |}
       ∧ fs (delete_collection None (OsPath.sep :: rest) w).2 = delete (OsPath.sep :: rest) (fs w)).
Proof.
  split; [reflexivity|]. split; [|split].
  - intros fault q k.
    set (request := {| query := q; collection := OsPath.sep :: rest; top_k := k |}).
    destruct (fs w !! (OsPath.sep :: rest)) as [n|] eqn:E.
    + pose proof (query_present P fault request w) as H.
      change (get_collection_path (collection request)) with (OsPath.sep :: rest) in H.
      rewrite E in H. specialize (H (ltac:(eauto))).
      destruct (query_collection P fault request w).1 as [a|e].
      * split; discriminate.
      * destruct H as [cause ->]. split; discriminate.
    + rewrite (query_absent P fault request w) by exact E. cbn. tauto.
  - intros fault.
    destruct (stats_not_found_and_read_only_aux fault (OsPath.sep :: rest) w) as [H _].
    exact H.
  - intros index H.
    rewrite (delete_present None (OsPath.sep :: rest) (Dir index) w) by exact H.
    split; reflexivity.
Qed.

(** ** [os.path.splitext] *)

Lemma rfind_from_spec (c : N) (s : str) (i last : Z) :
  (PyStr.rfind_from c s i last = last ∧ c ∉ s)
  ∨ ∃ j : nat, PyStr.rfind_from c s i last = i + Z.of_nat j
               ∧ s !! j = Some c ∧ c ∉ drop (S j) s.
Proof.
  revert i last. induction s as [|x s IH]; intros i last; cbn.
  - left. split; [reflexivity | apply not_elem_of_nil].
  - destruct (N.eqb_spec x c) as [->|Hne].
    + destruct (IH (i + 1) i) as [[Hr Hnot]|(j & Hr & Hj & Hnot)].
      * right. exists 0%nat. cbn. split; [lia|]. split; [reflexivity | exact Hnot].
      * right. exists (S j). cbn. split; [lia|]. split; [exact Hj | exact Hnot].
    + destruct (IH (i + 1) last) as [[Hr Hnot]|(j & Hr & Hj & Hnot)].
      * left. split; [exact Hr|]. rewrite not_elem_of_cons. split; [congruence | exact Hnot].
      * right. exists (S j). cbn. split; [lia|]. split; [exact Hj | exact Hnot].
Qed.

Lemma rfind_spec (c : N) (s : str) :
  (PyStr.rfind c s = -1 ∧ c ∉ s)
  ∨ ∃ j : nat, PyStr.rfind c s = Z.of_nat j ∧ s !! j = Some c ∧ c ∉ drop (S j) s.
Proof.
  unfold PyStr.rfind.
  destruct (rfind_from_spec c s 0 (-1)) as [H|(j & Hr & Hj & Hnot)]; [left; exact H|].
  right. exists j. split; [lia | auto].
Qed.

(** What [os.path.splitext] promises, and keeps: the two parts put
    together are the path; the extension is empty, or it starts with
    the last dot of the path and holds no other dot and no separator,
    and then the root is not empty. *)
Theorem splitext_parts (p : str) :
  (OsPath.splitext p).1 ++ (OsPath.splitext p).2 = p
  ∧ ((OsPath.splitext p).2 = []
     ∨ ∃ rest, (OsPath.splitext p).2 = OsPath.extsep :: rest
               ∧ (OsPath.extsep ∉ rest)
               ∧ (OsPath.sep ∉ rest)
               ∧ (OsPath.splitext p).1 ≠ []).
Proof.
  unfold OsPath.splitext.
  destruct (rfind_spec OsPath.extsep p) as [[Hd _]|(d & Hd & Hpd & Hnodot)]; rewrite Hd.
  - replace (PyStr.rfind OsPath.sep p <? -1) with false.
    + cbn. rewrite app_nil_r. auto.
    + symmetry. apply Z.ltb_ge.
      destruct (rfind_spec OsPath.sep p) as [[-> _]|(j & -> & _)]; lia.
  - destruct ((PyStr.rfind OsPath.sep p <? Z.of_nat d) && _) eqn:E; cbn [fst snd];
      [|rewrite app_nil_r; auto].
    apply andb_true_iff in E as [Hlt Hstem]. apply Z.ltb_lt in Hlt.
    unfold PyStr.slice_to, PyStr.slice_from. rewrite Nat2Z.id.
    split; [apply take_drop|]. right. exists (drop (S d) p).
    split; [apply drop_S, Hpd|]. split; [exact Hnodot|]. split.
    + destruct (rfind_spec OsPath.sep p) as [[_ Hnone]|(j & Hj & _ & Hnone)].
      * intros Hin. apply Hnone. eapply subseteq_drop, Hin.
      * rewrite Hj in Hlt. assert (j < d)%nat by lia.
        intros Hin. apply Hnone.
        replace (S d) with (S j + (d - j))%nat in Hin by lia.
        rewrite <- drop_drop in Hin. eapply subseteq_drop, Hin.
    + intros Hnil. apply (f_equal length) in Hnil. rewrite length_take in Hnil. cbn in Hnil.
      assert (d < length p)%nat by (eapply lookup_lt_Some, Hpd).
      assert (d = 0)%nat as -> by lia.
      destruct (rfind_spec OsPath.sep p) as [[Hs _]|(j & Hs & _)]; rewrite Hs in *; [|lia].
      cbn in Hstem. discriminate.
Qed.

(** ** The calculator, continued *)

Section CalculatorMore.
Import Calculator.

Lemma returned_cases (A : Numbers) (r : num A + arith_error) :
  match returned A r with
  | Ok _ => True
  | Err x => ∃ a, x = Arith a
  end.
Proof. destruct r; cbn; eauto. Qed.

(** An expression built from numeric literals and the six operators is
    never refused: [eval_node] returns its value, or raises the
    arithmetic exception of one of the operators, and no [ValueError],
    [TypeError] or [SyntaxError]. *)
Theorem arithmetic_is_evaluated (A : Numbers) (e : expr) :
  arithmetic e = true →
  match eval_node A e with
  | Ok _ => True
  | Err x => ∃ a, x = Arith a
  end.
Proof.
  induction e as [c|l IHl op r IHr|op x IHx| | | | | | | | | | |]; cbn; try discriminate.
  - destruct c; [auto | discriminate..].
  - destruct op; try discriminate;
      (intros H; apply andb_true_iff in H as [Hl Hr];
       specialize (IHl Hl); specialize (IHr Hr); cbn;
       destruct (eval_node A l) as [a|?]; [|exact IHl];
       destruct (eval_node A r) as [b|?]; [|exact IHr];
       apply returned_cases).
  - destruct op; try discriminate. intros H. specialize (IHx H). cbn.
    destruct (eval_node A x) as [a|?]; [|exact IHx]. apply returned_cases.
Qed.

Lemma arithmetic_is_evaluated_witness :
  match eval_node symbolic two_plus_three_times_four with
  | Ok _ => True
  | Err x => ∃ a, x = Arith a
  end.
Proof. apply (arithmetic_is_evaluated symbolic two_plus_three_times_four). reflexivity. Defined.

End CalculatorMore.

Section EndpointProperties.
Import Calculator CalculatorEndpoint.

(** X6.  [calculate_endpoint] answers ["success"] exactly when the request
    holds under ["expression"] a non-empty string that parses to an
    expression built from numeric literals and the six operators,
    whose evaluation returns a number that [float] accepts; the
    response then carries the string and that float.  Every other
    request, a missing or empty expression, a value that is no string,
    a refused or failing expression, is answered ["error"]. *)
Theorem endpoint_success_iff (A : Numbers) (parse : string -> option expr)
    (F : Type) (to_float : num A -> F + exc) (req : MCPInput) :
  (cr_status (calculate_endpoint A parse to_float req) = "success"
   ↔ ∃ s body v x,
       input req !! "expression" = Some (JStr s)
       ∧ s ≠ ""
       ∧ parse s = Some body
       ∧ arithmetic body = true
       ∧ eval_node A body = Ok v
       ∧ to_float v = inl x
       ∧ cr_result (calculate_endpoint A parse to_float req) = Numeric s x)
  ∧ (cr_status (calculate_endpoint A parse to_float req) = "success"
     ∨ cr_status (calculate_endpoint A parse to_float req) = "error")
  ∧ (truthy (default (JStr "") (input req !! "expression")) = false →
     calculate_endpoint A parse to_float req = failure NoExpressionProvided).
Proof.
  unfold calculate_endpoint, safe_eval.
  destruct (input req !! "expression") as [v|] eqn:Hin; cbn [default from_option id].
  - destruct (truthy v) eqn:Ht; cbn [negb].
    + destruct v as [|b|z|q|s|items|fields];
        try (split; [split; [discriminate
                            | intros (s0 & b0 & v0 & x0 & H & _); discriminate]|];
             split; [right; reflexivity | intros Hfalse; congruence]).
      destruct (parse s) as [body|] eqn:Hp.
      2:{ split; [split; [discriminate|]|split; [right; reflexivity | intros Hf; congruence]].
          intros (s0 & b0 & v0 & x0 & H & _ & Hp' & _). injection H as <-. congruence. }
      destruct (eval_node A body) as [n|e] eqn:He.
      2:{ split; [split; [discriminate|]|split; [right; reflexivity | intros Hf; congruence]].
          intros (s0 & b0 & v0 & x0 & H & _ & Hp' & _ & He' & _). injection H as <-.
          congruence. }
      destruct (to_float n) as [x|e] eqn:Hf.
      2:{ split; [split; [discriminate|]|split; [right; reflexivity | intros Hf0; congruence]].
          intros (s0 & b0 & v0 & x0 & H & _ & Hp' & _ & He' & Hf' & _). injection H as <-.
          congruence. }
      split; [|split; [left; reflexivity | intros Hf0; congruence]].
      split; [|reflexivity]. intros _. exists s, body, n, x.
      split; [reflexivity|]. split.
      { intros ->. cbn in Ht. discriminate. }
      split; [exact Hp|]. split; [exact (eval_node_value A body n He)|].
      split; [exact He|]. split; [exact Hf | reflexivity].
    + split; [split; [discriminate|]|split; [right; reflexivity | reflexivity]].
      intros (s0 & b0 & v0 & x0 & H & Hne & _). injection H as ->. cbn in Ht.
      apply negb_false_iff, String.eqb_eq in Ht. congruence.
  - cbn. split; [split; [discriminate | intros (s0 & b0 & v0 & x0 & H & _); discriminate]|].
    split; [right; reflexivity | reflexivity].
Qed.

End EndpointProperties.

(** ** Listing the collections *)

Lemma list_entries_run (env : listing_env) (names : list str) (acc : list CollectionInfo) (w : world) :
  ∃ w', list_entries env names acc w = (Ret (acc ++ omap (info_of env (fs w)) names), w')
        ∧ fs w' = fs w.
Proof.
  revert acc w. induction names as [|name rest IH]; intros acc w; cbn [list_entries omap].
  - exists w. unfold ret. rewrite app_nil_r. auto.
  - unfold bind at 1, path_isdir. run_monad. unfold info_of at 1.
    destruct (fs w !! get_collection_path name) as [[c|index]|] eqn:E; cbn.
    + destruct (IH acc {| fs := fs w; trace := trace w ++ [EvExists (get_collection_path name)] |})
        as (w' & Hrun & Hfs). rewrite Hrun. eauto.
    + unfold describe, try_except. run_monad. rewrite E.
      destruct (unreadable env name); cbn.
      * match goal with |- context [list_entries env rest acc ?w1] =>
          destruct (IH acc w1) as (w' & Hrun & Hfs) end.
        rewrite Hrun. eauto.
      * match goal with |- context [list_entries env rest ?acc1 ?w1] =>
          destruct (IH acc1 w1) as (w' & Hrun & Hfs) end.
        rewrite Hrun. cbn in *. rewrite <- app_assoc. eauto.
    + destruct (IH acc {| fs := fs w; trace := trace w ++ [EvExists (get_collection_path name)] |})
        as (w' & Hrun & Hfs). rewrite Hrun. eauto.
Qed.

Lemma entry_name_Some (path name : str) :
  entry_name path = Some name ↔ path = base_prefix ++ name ∧ name ≠ [] ∧ OsPath.sep ∉ name.
Proof.
  unfold entry_name. split.
  - case_bool_decide as Hp; [|discriminate]. case_bool_decide as Hn; [|discriminate].
    intros H. injection H as <-. split; [|exact Hn].
    transitivity (take (length base_prefix) path ++ drop (length base_prefix) path);
      [symmetry; apply take_drop | by rewrite Hp].
  - intros (-> & Hne & Hsep).
    rewrite take_app_length, bool_decide_eq_true_2 by reflexivity.
    cbn zeta. rewrite drop_app_length, bool_decide_eq_true_2 by auto. reflexivity.
Qed.

Lemma entry_path (name : str) :
  name ≠ [] → OsPath.sep ∉ name → get_collection_path name = base_prefix ++ name.
Proof.
  intros Hne Hsep. destruct name as [|x rest]; [congruence|].
  rewrite collection_path_of_relative by (intros ->; apply Hsep; left).
  unfold base_prefix. rewrite <- app_assoc. reflexivity.
Qed.

(** The entries of the base directory are the names, without a
    separator, whose path exists. *)
Lemma elem_of_listdir (w : world) (name : str) :
  name ∈ listdir w ↔ name ≠ [] ∧ (OsPath.sep ∉ name) ∧ is_Some (fs w !! get_collection_path name).
Proof.
  unfold listdir. rewrite list_elem_of_omap. split.
  - intros (path & Hpath & Hname). apply entry_name_Some in Hname as (-> & Hne & Hsep).
    split; [exact Hne|]. split; [exact Hsep|]. rewrite entry_path by assumption.
    apply list_elem_of_fmap in Hpath as ([p n] & Hp & Hin). cbn in Hp. subst p.
    apply elem_of_map_to_list in Hin. eauto.
  - intros (Hne & Hsep & [n Hn]). exists (get_collection_path name). split.
    + apply list_elem_of_fmap. exists (get_collection_path name, n). split; [reflexivity|].
      apply elem_of_map_to_list, Hn.
    + rewrite entry_path by assumption. apply entry_name_Some. auto.
Qed.

Lemma NoDup_omap_inj {A B} (f : A -> option B) (l : list A) :
  NoDup l → (∀ x y z, f x = Some z → f y = Some z → x = y) → NoDup (omap f l).
Proof.
  intros Hl Hinj. induction Hl as [|x l Hx Hl IH]; cbn; [constructor|].
  destruct (f x) as [z|] eqn:E; [|exact IH]. constructor; [|exact IH].
  rewrite list_elem_of_omap. intros (y & Hy & Hfy).
  rewrite (Hinj x y z E Hfy) in Hx. contradiction.
Qed.

Lemma NoDup_listdir (w : world) : NoDup (listdir w).
Proof.
  apply NoDup_omap_inj; [apply NoDup_fst_map_to_list|].
  intros x y z Hx Hy. apply entry_name_Some in Hx as [-> _], Hy as [-> _]. reflexivity.
Qed.

Lemma omap_info_names (env : listing_env) (files : gmap str node) (names : list str) :
  ci_name <$> omap (info_of env files) names `sublist_of` names.
Proof.
  induction names as [|name rest IH]; cbn; [constructor|].
  unfold info_of at 1.
  destruct (files !! get_collection_path name) as [[c|index]|];
    [by constructor | | by constructor].
  destruct (unreadable env name); cbn; by constructor.
Qed.

(** X7.  [list_collections] never fails and never changes the file system.
    With the base directory there, it lists, once each, exactly the
    entries of the base directory that are directories and can be
    opened and counted, each with the number of records it stores: a
    directory without records is listed with count 0, a regular file
    is not listed, and an entry that cannot be read is passed over
    without failing the listing.  Without the base directory the list
    is empty. *)
Theorem list_collections_lists_directories (env : listing_env) (w : world) :
  ∃ infos w',
    list_collections env w = (Ret infos, w')
    ∧ fs w' = fs w
    ∧ NoDup (ci_name <$> infos)
    ∧ (base_there env = false → infos = [])
    ∧ (base_there env = true →
       ∀ info, info ∈ infos ↔
         ci_name info ≠ []
         ∧ (OsPath.sep ∉ ci_name info)
         ∧ unreadable env (ci_name info) = false
         ∧ ∃ index,
             fs w !! get_collection_path (ci_name info) = Some (Dir index)
             ∧ info = {| ci_name := ci_name info;
                         document_count := length index;
                         created_at := ctime env (get_collection_path (ci_name info));
                         last_updated := mtime env (get_collection_path (ci_name info)) |}).
Proof.
  unfold list_collections. destruct (base_there env); cbn [negb].
  - unfold bind, gets.
    destruct (list_entries_run env (listdir w) [] w) as (w' & Hrun & Hfs).
    rewrite Hrun. cbn [app].
    exists (omap (info_of env (fs w)) (listdir w)), w'.
    split; [reflexivity|]. split; [exact Hfs|]. split.
    { eapply sublist_NoDup; [apply NoDup_listdir | apply omap_info_names]. }
    split; [discriminate|]. intros _ info.
    rewrite list_elem_of_omap. setoid_rewrite elem_of_listdir. split.
    + intros (name & (Hne & Hsep & _) & Hinfo). unfold info_of in Hinfo.
      destruct (fs w !! get_collection_path name) as [[c|index]|] eqn:E; try discriminate.
      destruct (unreadable env name) eqn:Hu; [discriminate|].
      injection Hinfo as <-. cbn. repeat split; try assumption. eauto.
    + intros (Hne & Hsep & Hu & index & Hdir & Hinfo).
      exists (ci_name info). split; [by eauto|].
      unfold info_of. rewrite Hdir, Hu. congruence.
  - exists [], w. repeat split; try reflexivity; try discriminate. constructor.
Qed.

(** ** The loader of the scratch copy *)

Lemma rfind_unique (c : N) (s : str) (j : nat) :
  s !! j = Some c → c ∉ drop (S j) s → PyStr.rfind c s = Z.of_nat j.
Proof.
  intros Hj Hnot.
  destruct (rfind_spec c s) as [[_ Hnone]|(k & Hr & Hk & Hknot)].
  - destruct Hnone. eapply list_elem_of_lookup_2, Hj.
  - rewrite Hr. f_equal.
    destruct (Nat.lt_trichotomy j k) as [Hlt|[->|Hgt]]; [|reflexivity|].
    + destruct Hnot. apply list_elem_of_lookup. exists (k - S j)%nat.
      rewrite lookup_drop. rewrite <- Hk. f_equal. lia.
    + destruct Hknot. apply list_elem_of_lookup. exists (j - S k)%nat.
      rewrite lookup_drop. rewrite <- Hj. f_equal. lia.
Qed.

Lemma has_stem_found (p : str) (n : nat) (i : Z) (k : nat) (y : N) :
  0 <= i → i <= Z.of_nat k < i + Z.of_nat n → p !! k = Some y → y ≠ OsPath.extsep →
  OsPath.has_stem p i n = true.
Proof.
  revert i. induction n as [|n IH]; intros i Hi Hk Hy Hne; [lia|]. cbn.
  destruct (p !! Z.to_nat i) as [x|] eqn:E; [|reflexivity].
  destruct (N.eqb_spec x OsPath.extsep) as [->|]; [|reflexivity].
  apply IH; [lia | | exact Hy | exact Hne].
  assert (Z.to_nat i ≠ k) by (intros <-; congruence). lia.
Qed.

(** A path made of a stem that ends in an ordinary character and of an
    extension splits back into the two. *)
Lemma splitext_stem_ext (stem rest : str) (x : N) :
  last stem = Some x → x ≠ OsPath.extsep → x ≠ OsPath.sep →
  OsPath.extsep ∉ rest → OsPath.sep ∉ rest →
  OsPath.splitext (stem ++ OsPath.extsep :: rest) = (stem, OsPath.extsep :: rest).
Proof.
  intros Hlast Hxdot Hxsep Hdot Hsep.
  set (p := stem ++ OsPath.extsep :: rest).
  assert (Hlen : (0 < length stem)%nat) by (destruct stem; [discriminate | cbn; lia]).
  assert (Hx : p !! (length stem - 1)%nat = Some x).
  { unfold p. rewrite lookup_app_l by lia. rewrite <- Hlast, last_lookup. f_equal. lia. }
  assert (Hd : PyStr.rfind OsPath.extsep p = Z.of_nat (length stem)).
  { apply rfind_unique; unfold p.
    - rewrite lookup_app_r, Nat.sub_diag by lia. reflexivity.
    - replace (S (length stem)) with (length stem + 1)%nat by lia.
      rewrite <- drop_drop, drop_app_length. exact Hdot. }
  assert (Hs : PyStr.rfind OsPath.sep p + 1 <= Z.of_nat (length stem - 1)
               ∧ -1 <= PyStr.rfind OsPath.sep p).
  { destruct (rfind_spec OsPath.sep p) as [[-> _]|(j & -> & Hj & _)]; [lia|].
    split; [|lia].
    assert (j < length stem - 1)%nat; [|lia].
    destruct (Nat.lt_trichotomy j (length stem - 1)) as [?|[->|Hgt]]; [assumption| |].
    - congruence.
    - exfalso. unfold p in Hj. rewrite lookup_app_r in Hj by lia.
      destruct (j - length stem)%nat as [|m] eqn:Em; cbn in Hj; [discriminate|].
      apply Hsep. eapply list_elem_of_lookup_2, Hj. }
  unfold OsPath.splitext. fold p. rewrite Hd.
  rewrite (proj2 (Z.ltb_lt _ _)) by lia.
  rewrite (has_stem_found p _ _ (length stem - 1) x) by (auto; lia).
  cbn [andb]. unfold PyStr.slice_to, PyStr.slice_from. rewrite Nat2Z.id.
  unfold p. rewrite take_app_length, drop_app_length. reflexivity.
Qed.

Lemma supported_shape (e : str) :
  e ∈ supported_formats →
  ∃ rest, e = OsPath.extsep :: rest ∧ (OsPath.extsep ∉ rest) ∧ (OsPath.sep ∉ rest).
Proof.
  unfold supported_formats. rewrite !elem_of_cons, elem_of_nil.
  unfold OsPath.extsep, OsPath.sep.
  intros [->|[->|[->|[->|[]]]]]; eexists; (split; [vm_compute; reflexivity|]);
    rewrite !not_elem_of_cons; repeat split; (discriminate || apply not_elem_of_nil).
Qed.

(** On a platform whose [lower] leaves the four registered extensions
    as they are, and with a scratch name whose stem ends in a character
    that is neither a dot nor a separator, [get_loader_for_file] finds
    for the scratch copy the loader registered for the extension that
    the upload was validated with: its [ValueError] is never raised by
    an upload. *)
Theorem scratch_copy_gets_its_loader (P : Platform) (env : upload_env) (f : UploadFile)
    (l : loader) (x : N) :
  (∀ e, e ∈ supported_formats → lower P e = e) →
  last (tmp_stem env) = Some x → x ≠ OsPath.extsep → x ≠ OsPath.sep →
  SUPPORTED_EXTENSIONS !! ext_of P (filename f) = Some l →
  get_loader_for_file P (scratch_path P env f) = Ret l.
Proof.
  intros Hlower Hlast Hxdot Hxsep Hext.
  assert (Hin : ext_of P (filename f) ∈ supported_formats).
  { destruct (decide (ext_of P (filename f) ∈ supported_formats)) as [?|Hn]; [assumption|].
    apply supported_lookup_None in Hn. congruence. }
  destruct (supported_shape _ Hin) as (rest & Hshape & Hdot & Hsep).
  unfold get_loader_for_file, scratch_path. unfold ext_of at 1.
  rewrite Hshape at 1.
  rewrite (splitext_stem_ext (tmp_stem env) rest x) by assumption. cbn [snd].
  rewrite <- Hshape, (Hlower _ Hin), Hext. reflexivity.
Qed.

Lemma scratch_copy_gets_its_loader_witness :
  get_loader_for_file reference (scratch_path reference demo_env notes_txt) = Ret TextLoader.
Proof.
  apply (scratch_copy_gets_its_loader reference demo_env notes_txt TextLoader 52%N).
  - unfold supported_formats. intros e. rewrite !elem_of_cons, elem_of_nil.
    intros [->|[->|[->|[->|[]]]]]; reflexivity.
  - reflexivity.
  - discriminate.
  - discriminate.
  - vm_compute. reflexivity.
Defined.

(** ** The histogram, source by source, counted *)

Lemma tally_steps_count (mds : list (gmap str str)) (h : gmap str nat) (s : str) :
  default 0%nat (foldl tally_step h mds !! s)
  = (default 0 (h !! s) + length (filter (λ md, source_of md = s) mds))%nat.
Proof.
  revert h. induction mds as [|md mds IH]; intros h; cbn [foldl]; [cbn; lia|].
  rewrite IH. unfold tally_step at 1. fold (source_of md).
  rewrite filter_cons. destruct (decide (source_of md = s)) as [->|Hne].
  - rewrite lookup_insert_eq. cbn. lia.
  - rewrite lookup_insert_ne by exact Hne. lia.
Qed.

Lemma tally_steps_listed (mds : list (gmap str str)) (h : gmap str nat) (s : str) :
  is_Some (foldl tally_step h mds !! s) ↔ is_Some (h !! s) ∨ ∃ md, md ∈ mds ∧ source_of md = s.
Proof.
  revert h. induction mds as [|md mds IH]; intros h; cbn [foldl].
  - split; [auto|]. intros [H|(md & Hin & _)]; [exact H | by apply elem_of_nil in Hin].
  - rewrite IH. unfold tally_step at 1. fold (source_of md).
    rewrite lookup_insert_is_Some. setoid_rewrite elem_of_cons. split.
    + intros [[Heq|[_ H]]|(md' & Hin & Hs)]; eauto 6.
    + intros [H|(md' & [->|Hin] & Hs)]; [|by auto|by eauto].
      destruct (decide (source_of md = s)); auto.
Qed.

(** The histogram of [get_collection_stats] is exact: a source is listed
    if and only if some stored chunk has it as its [source_file] (a
    chunk without that key counts under ["unknown"]), and its count is
    the number of those chunks. *)
Theorem stats_counts_per_source (name : str) (index : list Document) (w : world) :
  fs w !! get_collection_path name = Some (Dir index) →
  ∃ st, (get_collection_stats false name w).1 = Ret st
        ∧ ∀ s,
            (is_Some (source_files st !! s)
             ↔ ∃ d, d ∈ index ∧ source_of (metadata d) = s)
            ∧ default 0%nat (source_files st !! s)
              = length (filter (λ d, source_of (metadata d) = s) index).
Proof.
  intros H. eexists. split; [apply stats_of_dir, H|]. cbn [source_files].
  intros s. rewrite tally_is_fold. split.
  - rewrite tally_steps_listed, lookup_empty. split.
    + intros [[? ?]|(md & Hin & Hs)]; [discriminate|].
      apply list_elem_of_fmap in Hin as (d & -> & Hd). eauto.
    + intros (d & Hd & Hs). right. exists (metadata d). split; [|exact Hs].
      apply list_elem_of_fmap. eauto.
  - rewrite tally_steps_count, lookup_empty. cbn. clear H.
    induction index as [|d rest IH]; [reflexivity|]. cbn [map].
    rewrite !filter_cons. destruct (decide (source_of (metadata d) = s)); cbn; [f_equal|];
      exact IH.
Qed.

Lemma stats_counts_per_source_witness :
  ∃ st, (get_collection_stats false (py "docs") docs_world).1 = Ret st
        ∧ ∀ s,
            (is_Some (source_files st !! s)
             ↔ ∃ d, d ∈ [doc_a; doc_b] ∧ source_of (metadata d) = s)
            ∧ default 0%nat (source_files st !! s)
              = length (filter (λ d, source_of (metadata d) = s) [doc_a; doc_b]).
Proof.
  apply (stats_counts_per_source (py "docs") [doc_a; doc_b] docs_world).
  apply lookup_singleton_eq.
Defined.

